(** * Fiscus: grocery price aggregation

    A shallow embedding of the parts of the Fiscus project that its
    specification describes, and the proofs of their properties:

    - the shopping cart of the mobile client
      (frontend/src/context/CartContext.js, [Module Cart]);
    - the badge assignment of the map screen
      (screens/MapScreen, [Module MapScreen]);
    - the scraping back end as far as backend/docs/cron.md documents it:
      the [Store] and [Price] models and the save loop ([Module Db],
      [Module PriceReconciler]), the store-context injection of the ATB
      and Silpo scrapers ([Module StoreContextInjector]) and the scheduled
      run over the active stores ([Module ScrapeOrchestrator]).  The parts
      of the back end that the sources do not contain are modelled from
      the specification; their definitions say so.

    The numbers of the cart are JavaScript numbers, that is binary64
    values with their rounding ([Module JsNumber]); the amounts of money of
    the store list and of the back end are rationals ([Q]).  The
    definitions come first, then a module of proofs for each component. *)

From Stdlib Require Import ZArith QArith Qcanon Qround Lia Lqa Ascii String.
From stdpp Require Import base option list sorting gmap strings pretty.

Local Open Scope Z_scope.

(* ===================================================================== *)
(** * List helpers                                                        *)
(* ===================================================================== *)

Section Scan.
Context {A : Type} (p : A → bool).

(** The longest prefix whose elements satisfy [p], and what follows it. *)
Fixpoint take_while (l : list A) : list A :=
  match l with
  | x :: l' => if p x then x :: take_while l' else []
  | [] => []
  end.

Fixpoint drop_while (l : list A) : list A :=
  match l with
  | x :: l' => if p x then drop_while l' else l
  | [] => []
  end.
End Scan.

(* ===================================================================== *)
(** * JavaScript numbers                                                  *)
(* ===================================================================== *)

Module JsNumber.

(** A JavaScript number, that is an IEEE 754 binary64 value: NaN, one of
    the two infinities, or a finite value, given by the rational it
    denotes.  The two zeros are one value here: the code below compares
    numbers, adds them and tests them for truth, and none of that tells
    +0 from -0. *)
Inductive number :=
| NaN
| Infinity (negative : bool)
| Finite (q : Qc).

(** The number an integer denotes, when it is a binary64 value (up to
    2^53 all are), and the integer a number denotes, if it does. *)
Definition of_Z (z : Z) : number := Finite (Qc_of_Z z).

Definition to_Z (x : number) : option Z :=
  match x with
  | Finite q => if (Z.pos (Qden q) =? 1) then Some (Qnum q) else None
  | _ => None
  end.

Definition zero : number := of_Z 0.
Definition one : number := of_Z 1.

(** 2^k as a rational, for any integer k. *)
Definition pow2 (k : Z) : Q :=
  if 0 <=? k then inject_Z (2 ^ k) else 1 # Z.to_pos (2 ^ (- k)).

(** The integer k with 2^k <= n/d < 2^(k+1), for positive n and d. *)
Definition floor_log2 (n d : Z) : Z :=
  let k := Z.log2 n - Z.log2 d in
  if (if 0 <=? k then d * 2 ^ k <=? n else d <=? n * 2 ^ (- k))
  then k else k - 1.

(** n/d rounded to the nearest integer, to the even one on a tie, for
    n >= 0 and d > 0. *)
Definition div_nearest_even (n d : Z) : Z :=
  let q := n / d in
  match 2 * (n mod d) ?= d with
  | Lt => q
  | Gt => q + 1
  | Eq => if Z.even q then q else q + 1
  end.

(** The binary64 value nearest to n/d, for positive n and d: 53
    significant bits, exponents from -1022 (below which the spacing stays
    2^-1074) to 1023, ties to the even significand, and Infinity from
    2^1024 on. *)
Definition round_pos (n d : Z) : number :=
  let e := Z.max (floor_log2 n d) (-1022) in
  let s := e - 52 in
  let m := if 0 <=? s then div_nearest_even n (d * 2 ^ s)
           else div_nearest_even (n * 2 ^ (- s)) d in
  if (0 <=? s) && (2 ^ 1024 <=? m * 2 ^ s) then Infinity false
  else Finite (Q2Qc (inject_Z m * pow2 s)).

Definition neg (x : number) : number :=
  match x with
  | NaN => NaN
  | Infinity b => Infinity (negb b)
  | Finite q => Finite (- q)%Qc
  end.

(** The number that a real result is rounded to. *)
Definition round (x : Qc) : number :=
  match Qnum x with
  | 0 => Finite 0%Qc
  | Z.pos p => round_pos (Z.pos p) (Z.pos (Qden x))
  | Z.neg p => neg (round_pos (Z.pos p) (Z.pos (Qden x)))
  end.

(** A decimal literal of the source, such as [35.50]. *)
Definition literal (q : Q) : number := round (Q2Qc q).

(** [x + y] *)
Definition add (x y : number) : number :=
  match x, y with
  | NaN, _ | _, NaN => NaN
  | Infinity a, Infinity b => if Bool.eqb a b then Infinity a else NaN
  | Infinity a, Finite _ | Finite _, Infinity a => Infinity a
  | Finite a, Finite b => round (a + b)%Qc
  end.

(** [x <= y]; false when one of them is NaN. *)
Definition leb (x y : number) : bool :=
  match x, y with
  | NaN, _ | _, NaN => false
  | Infinity a, Infinity b => a || negb b
  | Infinity a, Finite _ => a
  | Finite _, Infinity b => negb b
  | Finite a, Finite b => bool_decide (a ≤ b)%Qc
  end.

(** [x < y]; false when one of them is NaN. *)
Definition ltb (x y : number) : bool :=
  match x, y with
  | NaN, _ | _, NaN => false
  | Infinity a, Infinity b => a && negb b
  | Infinity a, Finite _ => a
  | Finite _, Infinity b => negb b
  | Finite a, Finite b => bool_decide (a < b)%Qc
  end.

(** [Math.max(x, y)]; NaN when one of them is NaN. *)
Definition max (x y : number) : number :=
  match x, y with
  | NaN, _ | _, NaN => NaN
  | _, _ => if leb x y then y else x
  end.

(** Whether a number is truthy: NaN and 0 are not. *)
Definition truthy (x : number) : bool :=
  match x with
  | NaN => false
  | Infinity _ => true
  | Finite q => bool_decide (q ≠ 0%Qc)
  end.

(** [x || y] *)
Definition or_else (x y : number) : number := if truthy x then x else y.

End JsNumber.

(* ===================================================================== *)
(** * The shopping cart (CartContext.js)                                  *)
(* ===================================================================== *)

Module Cart.
Import JsNumber.

(** A product as the screens pass it to [addToCart]:
    [{ id, name, price, store }].  Ids are the integer keys of the
    products; 0 is the falsy one. *)
Record Product := mkProduct {
  p_id : Z;
  p_name : string;
  p_price : number;
  p_store : string;
}.

(** A cart item, [{ ...product, quantity }]. *)
Record Item := mkItem {
  id : Z;
  name : string;
  price : number;
  store : string;
  quantity : number;
}.

Definition with_quantity (q : number) (i : Item) : Item :=
  mkItem (id i) (name i) (price i) (store i) q.

(** [{ ...product, quantity: 1 }] *)
Definition new_item (p : Product) : Item :=
  mkItem (p_id p) (p_name p) (p_price p) (p_store p) one.

(** [prevItems.findIndex((i) => i.id === product.id)]: the index of the
    first match, or -1. *)
Definition findIndex (pid : Z) (items : list Item) : Z :=
  match list_find (λ i, id i = pid) items with
  | Some (k, _) => Z.of_nat k
  | None => -1
  end.

(** [addToCart(product)]; [None] is a [null] or [undefined] product, and
    [!product?.id] also holds for the id 0.  The quantity of an item that
    is there becomes [quantity + 1], a sum of numbers. *)
Definition addToCart (product : option Product) (prevItems : list Item)
  : list Item :=
  match product with
  | None => prevItems
  | Some p =>
      if p_id p =? 0 then prevItems
      else
        let existingIndex := findIndex (p_id p) prevItems in
        if 0 <=? existingIndex then
          alter (λ it, with_quantity (add (quantity it) one) it)
                (Z.to_nat existingIndex) prevItems
        else prevItems ++ [new_item p]
  end.

(** [prevItems.filter((i) => i.id !== productId)] *)
Definition removeFromCart (productId : Z) (prevItems : list Item)
  : list Item :=
  filter (λ i, id i ≠ productId) prevItems.

(** [updateQuantity(productId, change)]:
    [Math.max(1, item.quantity + change)] on the item with that id.
    [change] is a number, as documented; it may be any number, NaN (which
    is also what an [undefined] change adds as) and the infinities
    included. *)
Definition updateQuantity (productId : Z) (change : number)
    (prevItems : list Item) : list Item :=
  (λ item,
     if id item =? productId
     then with_quantity (max one (add (quantity item) change)) item
     else item) <$> prevItems.

(** [Math.max(1, parseInt(quantity, 10) || 1)], for the number [parsed]
    that the engine's [parseInt(quantity, 10)] gives: NaN when the argument
    does not start with an integer, else that integer. *)
Definition validQuantity (parsed : number) : number :=
  max one (or_else parsed one).

(** [setQuantity(productId, quantity)], by what [parseInt] makes of
    [quantity]. *)
Definition setQuantity (productId : Z) (parsed : number)
    (prevItems : list Item) : list Item :=
  (λ item,
     if id item =? productId
     then with_quantity (validQuantity parsed) item
     else item) <$> prevItems.

Definition clearCart (prevItems : list Item) : list Item := [].

(** [items.some((item) => item.id === productId)] *)
Definition isInCart (productId : Z) (items : list Item) : bool :=
  existsb (λ i, id i =? productId) items.

(** [items.find(...)?.quantity || 0] *)
Definition getQuantity (productId : Z) (items : list Item) : number :=
  match list_find (λ i, id i = productId) items with
  | Some (_, i) => or_else (quantity i) zero
  | None => zero
  end.

(** [items.reduce((acc, item) => acc + (item.quantity || 0), 0)] *)
Definition itemCount (items : list Item) : number :=
  foldl (λ acc item, add acc (or_else (quantity item) zero)) zero items.

(** The operations of the provider, and the cart after a sequence of them
    (each [setItems] callback receives the previous items). *)
Inductive Op :=
| AddToCart (product : option Product)
| RemoveFromCart (productId : Z)
| UpdateQuantity (productId : Z) (change : number)
| SetQuantity (productId : Z) (parsed : number)
| ClearCart.

Definition apply_op (items : list Item) (o : Op) : list Item :=
  match o with
  | AddToCart p => addToCart p items
  | RemoveFromCart pid => removeFromCart pid items
  | UpdateQuantity pid change => updateQuantity pid change items
  | SetQuantity pid parsed => setQuantity pid parsed items
  | ClearCart => clearCart items
  end.

Definition run (ops : list Op) : list Item := foldl apply_op [] ops.

(** [1 <= quantity] *)
Definition at_least_one (x : number) : Prop := leb one x = true.

(** The cart invariant: quantities are at least 1 and ids are distinct. *)
Definition cart_ok (items : list Item) : Prop :=
  Forall (λ i, at_least_one (quantity i)) items ∧ NoDup (id <$> items).

(** The changes under which [updateQuantity] keeps the invariant: every
    number but NaN and -Infinity. *)
Definition usable_change (change : number) : Prop :=
  change ≠ NaN ∧ change ≠ Infinity true.

Definition usable (o : Op) : Prop :=
  match o with
  | UpdateQuantity _ change => usable_change change
  | _ => True
  end.

End Cart.

(* ===================================================================== *)
(** * Store badges of the map screen (screens/MapScreen)                  *)
(* ===================================================================== *)

Module MapScreen.

(** A store of the basket comparison:
    [{ id, name, latitude, longitude, total_price, savings, distance }]. *)
Record Store := mkStore {
  id : Z;
  name : string;
  latitude : Q;
  longitude : Q;
  total_price : Q;
  savings : Q;
  distance : string;
}.

(** Theme colours (theme.js). *)
Inductive Color := primary | success | warning.

Definition color_code (c : Color) : string :=
  match c with
  | primary => "#b39ddb"
  | success => "#4ade80"
  | warning => "#fbbf24"
  end.

(** [{ ...store, isBest, badge, badgeColor }]; a [null] badge is [None]. *)
Record BadgedStore := mkBadged {
  store : Store;
  isBest : bool;
  badge : option string;
  badgeColor : Color;
}.

(** The comparator [(a, b) => a.total_price - b.total_price]. *)
Definition by_total_price (a b : Store) : Q := total_price a - total_price b.

(** [Array.prototype.sort] is a stable sort: elements that compare equal
    keep their order.  Insertion from the right places an element before
    every later element it does not exceed. *)
Fixpoint insert_sorted (x : Store) (l : list Store) : list Store :=
  match l with
  | [] => [x]
  | y :: l' =>
      if Qle_bool (by_total_price x y) 0 then x :: y :: l'
      else y :: insert_sorted x l'
  end.

Definition sort (l : list Store) : list Store := foldr insert_sorted [] l.

(** The order the comparator induces. *)
Definition cheaper_or_equal (a b : Store) : Prop :=
  (total_price a <= total_price b)%Q.

(** [x.toFixed(0)]: the nearest integer, the larger one on a tie. *)
Definition toFixed0 (x : Q) : string := pretty (Qfloor (x + (1 # 2))).

Definition savings_badge (s : Store) : string :=
  "Економія ₴" +:+ toFixed0 (savings s).

Definition best_badge : string := "Найкраща ціна".

Definition Qgt_bool (x y : Q) : bool := negb (Qle_bool x y).

(** The callback of [storeList.map]; [first] and [second] are [sorted[0]]
    and [sorted[1]] ([second] is [None] when the list has one store). *)
Definition badge_store (first : Store) (second : option Store) (s : Store)
  : BadgedStore :=
  let isBest := id s =? id first in
  let isSecondBest :=
    match second with
    | Some s2 => id s =? id s2
    | None => false
    end in
  if isBest then mkBadged s isBest (Some best_badge) success
  else if isSecondBest && Qgt_bool (savings s) 0
  then mkBadged s isBest (Some (savings_badge s)) warning
  else if Qgt_bool (savings s) 20
  then mkBadged s isBest (Some (savings_badge s)) primary
  else mkBadged s isBest None primary.

(** [assignStoreBadges(storeList)]; a missing list is the empty list. *)
Definition assignStoreBadges (storeList : list Store) : list BadgedStore :=
  match storeList with
  | [] => []
  | _ :: _ =>
      match sort storeList with
      | first :: rest => badge_store first (head rest) <$> storeList
      | [] => [] (* not reached: sorting keeps the length *)
      end
  end.

End MapScreen.

(* ===================================================================== *)
(** * The scraping back end (backend/docs/cron.md)                        *)
(* ===================================================================== *)

(** ** Data model *)

(** [class Store(models.Model)], with [unique=True] on [external_store_id]
    and [unique_together = ("chain_name", "address")]. *)
Module Store.
Record t := mk {
  id : Z;
  chain_name : string;
  address : string;
  external_store_id : string;
  url_base : string;
  latitude : Q;
  longitude : Q;
  is_active : bool;
}.

Definition set_is_active (b : bool) (s : t) : t :=
  mk (id s) (chain_name s) (address s) (external_store_id s) (url_base s)
     (latitude s) (longitude s) b.
End Store.

(** The [Product] table of the schema: id, name, category, barcode,
    image_url. *)
Module Product.
Record t := mk {
  id : Z;
  name : string;
  category : option string;
  barcode : option string;
  image_url : option string;
}.
End Product.

(** [class Price(models.Model)]: one observation of a product at a store.
    The flag is [in_stock] in the model and [is_available] in the prose. *)
Module Price.
Record t := mk {
  product : Z;
  store : Z;
  price_value : Q;
  in_stock : bool;
  scraped_at : Z;
}.

Definition is_available (p : t) : bool := in_stock p.
End Price.

(** The dict a scraper returns per listing. *)
Module RawRecord.
Record t := mk {
  chain_name : option string;
  external_store_id : option string;
  name : string;
  price : Q;
  in_stock : bool;
  image_url : option string;
  barcode : option string;
}.
End RawRecord.

(** One dict of the list that [scrape_category] returns, as far as the save
    loop reads it: the values under the keys ['name'],
    ['external_store_id'], ['price'] and ['in_stock'].  [None] is a key that
    the dict lacks. *)
Module ScrapedItem.
Record t := mk {
  name : option string;
  external_store_id : option string;
  price : option Q;
  in_stock : option bool;
}.

(** The dict of an accepted record: it has the four keys. *)
Definition of_record (r : RawRecord.t) : t :=
  mk (Some (RawRecord.name r)) (RawRecord.external_store_id r)
     (Some (RawRecord.price r)) (Some (RawRecord.in_stock r)).
End ScrapedItem.

(** [store_metadata], the dict passed to [set_store_context]. *)
Module StoreContext.
Record t := mk {
  external_store_id : string;
  chain_name : string;
  address : string;
  latitude : Q;
  longitude : Q;
}.

Definition of_store (s : Store.t) : t :=
  mk (Store.external_store_id s) (Store.chain_name s) (Store.address s)
     (Store.latitude s) (Store.longitude s).
End StoreContext.

(** The exceptions of the back end: the lookup failure of a Python dict
    and the two failures of a Django [get], which the documented code
    raises, and the error kind that the specification names for a store
    that cannot be resolved, which no code of the sources defines or
    raises. *)
Inductive Error :=
| KeyError (key : string)
| DoesNotExist
| MultipleObjectsReturned
| StoreResolutionError (external_store_id : string).

(** The persistence layer: the three tables, the next surrogate keys of the
    store and product tables, and the clock that [auto_now_add] reads (it
    advances with every row written). *)
Module Db.
Record t := mk {
  stores : list Store.t;
  products : list Product.t;
  prices : list Price.t;
  next_store_id : Z;
  next_product_id : Z;
  clock : Z;
}.

Definition empty : t := mk [] [] [] 1 1 0.

Definition with_stores (l : list Store.t) (db : t) : t :=
  mk l (products db) (prices db) (next_store_id db) (next_product_id db)
     (clock db).

(** The two uniqueness constraints of the [Store] table, as the database
    checks them on a write. *)
Definition store_conflicts (s : Store.t) (db : t) : bool :=
  existsb (λ r,
    String.eqb (Store.external_store_id r) (Store.external_store_id s)
    || (String.eqb (Store.chain_name r) (Store.chain_name s)
        && String.eqb (Store.address r) (Store.address s))) (stores db).

(** [Model.objects.get(...)]: the one row that matches. *)
Definition get {A} (matching : list A) : Error + A :=
  match matching with
  | [] => inl DoesNotExist
  | [x] => inr x
  | _ => inl MultipleObjectsReturned
  end.

(** [Store.objects.get(external_store_id=...)] *)
Definition get_store (external_store_id : string) (db : t)
  : Error + Store.t :=
  get (filter (λ r, Store.external_store_id r = external_store_id)
              (stores db)).

(** [Product.objects.get_or_create(name=...)]: the product of that name,
    created when there is none. *)
Definition get_or_create_product (name : string) (db : t)
  : (Error + Product.t) * t :=
  match get (filter (λ p, Product.name p = name) (products db)) with
  | inl DoesNotExist =>
      let p := Product.mk (next_product_id db) name None None None in
      (inr p, mk (stores db) (products db ++ [p]) (prices db)
                 (next_store_id db) (next_product_id db + 1) (clock db))
  | r => (r, db)
  end.

(** [Price.objects.create(product=, store=, price_value=, in_stock=)];
    [scraped_at] is set by [auto_now_add]. *)
Definition create_price (product store : Z) (price_value : Q)
    (in_stock : bool) (db : t) : t :=
  mk (stores db) (products db)
     (prices db ++ [Price.mk product store price_value in_stock (clock db)])
     (next_store_id db) (next_product_id db) (clock db + 1).

(** Modelled from the spec: the most recent [Price] row of a product at a
    store, the one with the greatest [scraped_at] among its rows. *)
Definition newer (r : Price.t) (best : option Price.t) : option Price.t :=
  match best with
  | Some b => if Price.scraped_at b <? Price.scraped_at r
              then Some r else Some b
  | None => Some r
  end.

Definition most_recent_in (product store : Z) (rows : list Price.t)
  : option Price.t :=
  foldl (λ best r,
           if (Price.product r =? product) && (Price.store r =? store)
           then newer r best else best)
        None rows.

Definition most_recent (product store : Z) (db : t) : option Price.t :=
  most_recent_in product store (prices db).

(** What the database guarantees of its own: product keys are distinct and
    below the next key, and every row was written before the present
    time. *)
Definition wf (db : t) : Prop :=
  NoDup (Product.id <$> products db)
  ∧ Forall (λ p, Product.id p < next_product_id db) (products db)
  ∧ Forall (λ r, Price.scraped_at r < clock db) (prices db).

(** [db] is [db0] with more price rows, none of them of the product [pid],
    and possibly more products. *)
Definition extends_without (pid : Z) (db0 db : t) : Prop :=
  ∃ added,
    prices db = prices db0 ++ added
    ∧ Forall (λ r, Price.product r ≠ pid) added
    ∧ clock db0 ≤ clock db.

End Db.

(** ** RecordValidator *)

Module RecordValidator.



Definition is_space (c : ascii) : bool :=
  let n := nat_of_ascii c in
  (n =? 32)%nat || ((9 <=? n)%nat && (n <=? 13)%nat).

Definition ltrim (l : list ascii) : list ascii := drop_while is_space l.

(** Modelled from the spec: trimming removes the white space at both ends
    of a name. *)
Definition trim (s : string) : string :=
  string_of_list_ascii
    (reverse (ltrim (reverse (ltrim (list_ascii_of_string s))))).






End RecordValidator.

(** ** PageExtractor *)

Module PageExtractor.

(** Modelled from the spec: one product card of a rendered listing page,
    before parsing. *)
Record Listing := mkListing {
  listing_name : string;
  listing_price : string;
  listing_in_stock : bool;
  listing_image_url : option string;
  listing_barcode : option string;
}.

Definition is_digit (c : ascii) : bool :=
  let n := nat_of_ascii c in (48 <=? n)%nat && (n <=? 57)%nat.

Definition digit_value (c : ascii) : Z := Z.of_nat (nat_of_ascii c) - 48.

Definition is_separator (c : ascii) : bool :=
  Ascii.eqb c "," || Ascii.eqb c ".".

Definition not_digit (c : ascii) : bool := negb (is_digit c).

(** Modelled from the spec: the text between the first and the last digit;
    currency symbols, units and white space around the number are
    dropped. *)
Definition number_core (l : list ascii) : list ascii :=
  reverse (drop_while not_digit (reverse (drop_while not_digit l))).

(** The value of a run of digits, most significant first. *)
Definition digits_value (ds : list ascii) : Z :=
  foldl (λ acc c, 10 * acc + digit_value c) 0 ds.

(** Modelled from the spec: digits, optionally followed by one decimal
    comma or dot and more digits; anything else is unparsable. *)
Definition parse_number (core : list ascii) : option Q :=
  let int_part := take_while is_digit core in
  let rest := drop_while is_digit core in
  match int_part, rest with
  | [], _ => None
  | _, [] => Some (inject_Z (digits_value int_part))
  | _, sep :: frac =>
      if is_separator sep && negb (length frac =? 0)%nat
         && forallb is_digit frac
      then Some (digits_value (int_part ++ frac)
                 # Pos.pow 10 (Pos.of_nat (length frac)))
      else None
  end.

(** Modelled from the spec: the price parsing of [PageExtractor] (the
    scrapers' parsing code is not part of the sources).  It tolerates a
    decimal comma or dot and currency symbols around the number, and
    returns the normalized value, or [None] for a malformed price. *)
Definition parse_price (text : string) : option Q :=
  parse_number (number_core (list_ascii_of_string text)).

(** Modelled from the spec: one listing becomes a raw record that echoes
    the chain and the store id of the context; a listing whose price is
    malformed yields no record. *)
Definition extract_listing (ctx : StoreContext.t) (l : Listing)
  : option RawRecord.t :=
  price ← parse_price (listing_price l);
  Some (RawRecord.mk (Some (StoreContext.chain_name ctx))
                     (Some (StoreContext.external_store_id ctx))
                     (listing_name l) price (listing_in_stock l)
                     (listing_image_url l) (listing_barcode l)).

Definition extract_page (ctx : StoreContext.t) (page : list Listing)
  : list RawRecord.t :=
  omap (extract_listing ctx) page.

End PageExtractor.

(** ** PriceReconciler *)

Module PriceReconciler.

Record ReconcileResult := mkResult {
  inserted : nat;
  updated_unavailable : nat;
}.

(** The body of the documented save loop for one scraped item, in the
    order Python evaluates it: [item['name']], [get_or_create] of the
    product by that name, [item['external_store_id']], [Store.objects.get]
    by that id, then [item['price']] and [item['in_stock']] for the
    arguments of [Price.objects.create].  [Some e] is the exception that
    ends the step; what was written before it stays. *)
Definition save_record (db : Db.t) (item : ScrapedItem.t)
  : option Error * Db.t :=
  match ScrapedItem.name item with
  | None => (Some (KeyError "name"), db)
  | Some name =>
      match Db.get_or_create_product name db with
      | (inl e, db1) => (Some e, db1)
      | (inr product, db1) =>
          match ScrapedItem.external_store_id item with
          | None => (Some (KeyError "external_store_id"), db1)
          | Some ext =>
              match Db.get_store ext db1 with
              | inl e => (Some e, db1)
              | inr store =>
                  match ScrapedItem.price item with
                  | None => (Some (KeyError "price"), db1)
                  | Some price_value =>
                      match ScrapedItem.in_stock item with
                      | None => (Some (KeyError "in_stock"), db1)
                      | Some in_stock =>
                          (None,
                           Db.create_price (Product.id product)
                                           (Store.id store) price_value
                                           in_stock db1)
                      end
                  end
              end
          end
      end
  end.

(** The documented save loop, [for item in products: ...]: it has no
    exception handler, so the first item that raises ends it; the rows
    written for the items before it stay. *)
Fixpoint save_loop (products : list ScrapedItem.t) (db : Db.t)
  : option Error * Db.t :=
  match products with
  | [] => (None, db)
  | item :: rest =>
      match save_record db item with
      | (None, db') => save_loop rest db'
      | (Some e, db') => (Some e, db')
      end
  end.

(** Modelled from the spec: within a reconciliation, a record whose save
    fails is skipped and the batch continues; the second component counts
    the rows inserted. *)
Definition save_step (acc : Db.t * nat) (item : RawRecord.t) : Db.t * nat :=
  match save_record acc.1 (ScrapedItem.of_record item) with
  | (None, db') => (db', S acc.2)
  | (Some _, db') => (db', acc.2)
  end.

Definition save_all (records : list RawRecord.t) (db : Db.t) : Db.t * nat :=
  foldl save_step (db, 0%nat) records.

(** Modelled from the spec: a product is present in a run when a record of
    the run carries its name (products are matched by name). *)
Definition present (records : list RawRecord.t) (p : Product.t) : bool :=
  existsb (λ r, String.eqb (RawRecord.name r) (Product.name p)) records.

(** Modelled from the spec: the products that have a current price at the
    store and are absent from the run, each with its most recent row. *)
Definition stale_products (records : list RawRecord.t) (store : Store.t)
    (before : Db.t) : list (Product.t * Price.t) :=
  omap (λ p,
          if present records p then None
          else pair p <$> Db.most_recent (Product.id p) (Store.id store)
                                         before)
       (Db.products before).

(** Modelled from the spec: an absent product gets a new row with its last
    known price and the availability flag cleared. *)
Definition mark_unavailable (store : Store.t) (db : Db.t)
    (stale : Product.t * Price.t) : Db.t :=
  Db.create_price (Product.id stale.1) (Store.id store)
                  (Price.price_value stale.2) false db.

(** Modelled from the spec: [PriceReconciler.reconcile] (only the save loop
    is documented in the sources; the pass that marks absent products is
    described in prose).  Every accepted record is saved; then every
    product that had a most recent row at the store before the run and is
    absent from the run gets a new row with its last known price and the
    availability flag cleared.  No row is deleted or rewritten. *)
Definition reconcile (accepted_records : list RawRecord.t) (store : Store.t)
    (db : Db.t) : ReconcileResult * Db.t :=
  let stale := stale_products accepted_records store db in
  let '(db1, n) := save_all accepted_records db in
  let db2 := foldl (mark_unavailable store) db1 stale in
  (mkResult n (length stale), db2).

End PriceReconciler.

(** ** StoreContextInjector *)

Module StoreContextInjector.

(** The state of one browser session: the cookies (by domain and name),
    the local storage, the state of the location selector of the page
    (which neither documented method writes), and the location the loaded
    page reflects. *)
Record Session := mkSession {
  cookies : gmap (string * string) string;
  localStorage : gmap string string;
  cookies_modal_open : bool;
  region : option string;
  selected_store : option string;
  rendered : option string;
}.

Definition fresh_session : Session := mkSession ∅ ∅ true None None None.


(** Calls on the driver change the session and may raise. *)
Definition Driver (A : Type) : Type := Session → (Error + A) * Session.

Definition ret {A} (a : A) : Driver A := λ s, (inr a, s).

Definition raise {A} (e : Error) : Driver A := λ s, (inl e, s).

Definition bind {A B} (m : Driver A) (k : A → Driver B) : Driver B :=
  λ s, match m s with
       | (inr a, s') => k a s'
       | (inl e, s') => (inl e, s')
       end.

#[global] Instance driver_ret : MRet Driver := @ret.
#[global] Instance driver_bind : MBind Driver := λ A B k m, bind m k.

(** [driver.add_cookie({'name': ..., 'value': ..., 'domain': ...})] *)
Definition add_cookie (name value domain : string) : Driver unit :=
  λ s, (inr (),
        mkSession (<[(domain, name) := value]> (cookies s)) (localStorage s)
                  (cookies_modal_open s) (region s) (selected_store s)
                  (rendered s)).

(** [localStorage.setItem(key, value)] *)
Definition localStorage_setItem (key value : string) : Driver unit :=
  λ s, (inr (),
        mkSession (cookies s) (<[key := value]> (localStorage s))
                  (cookies_modal_open s) (region s) (selected_store s)
                  (rendered s)).

(** [driver.refresh()]: the page is loaded again and reflects what the
    site reads from the session. *)
Definition refresh (site_reads : Session → option string) : Driver unit :=
  λ s, (inr (),
        mkSession (cookies s) (localStorage s) (cookies_modal_open s)
                  (region s) (selected_store s) (site_reads s)).

Module ATB.
(** The ATB pages are rendered for the store of the [selectedStore]
    cookie. *)
Definition site_reads (s : Session) : option string :=
  cookies s !! (".atbmarket.com", "selectedStore").

(** [ATBScraper.set_store_context] as the snippet gives it: the cookie
    with the external store id, then the reload.  It looks nothing up and
    raises nothing.  The snippet leaves out the code of the steps 2 to 5 of
    its docstring, on the cookies modal and the region and store selectors
    of the page; the session keeps their state as it is. *)
Definition set_store_context (store_metadata : StoreContext.t)
  : Driver unit :=
  let external_store_id := StoreContext.external_store_id store_metadata in
  add_cookie "selectedStore" external_store_id ".atbmarket.com";;
  refresh site_reads.
End ATB.

Module Silpo.
Definition store_id_map : gmap string string :=
  <["silpo-lviv-forum" := "2043"]>
    (<["silpo-lviv-skymall" := "2044"]> ∅).

(** The Silpo single-page application reads [activeStoreId]. *)
Definition site_reads (s : Session) : option string :=
  localStorage s !! "activeStoreId".

(** The script of [set_store_context]: the local storage entry and the
    mirroring cookie. *)
Definition execute_script (numeric_id : string) : Driver unit :=
  localStorage_setItem "activeStoreId" numeric_id;;
  add_cookie "storeId" numeric_id ".silpo.ua".

(** [SilpoScraper.set_store_context]; the subscript
    [store_id_map[...]] raises [KeyError] for an unknown id. *)
Definition set_store_context (store_metadata : StoreContext.t)
  : Driver unit :=
  let key := StoreContext.external_store_id store_metadata in
  numeric_id ← match store_id_map !! key with
               | Some v => ret v
               | None => raise (KeyError key)
               end;
  execute_script numeric_id;;
  refresh site_reads.
End Silpo.

End StoreContextInjector.

(** ** The scheduled run (tasks.py, [scrape_all_stores]) *)

Module ScrapeOrchestrator.

(** A scraper, as the task uses it: [scrape_category(..., store_metadata)]
    returns the list of dicts of a store, or raises.  The bodies of the
    scrapers' [scrape_category] are not in the sources; the method is what
    the scraper is given with. *)
Record Scraper := mkScraper {
  scrape_category : StoreContext.t → Error + list ScrapedItem.t;
}.

(** What one run of the task did: the stores whose [scrape_category] was
    called, in order, and the exception that ended the run, if any.  The
    task returns nothing and keeps no summary. *)
Record Run := mkRun {
  scraped : list Store.t;
  raised : option Error;
}.

Section Task.

(** [get_scraper(store.chain_name)]: its body is not in the sources.  It
    gives the scraper of the chain, or, for a chain without one, the
    exception that ends the statement (raised by the lookup itself or by
    the method call on what it returned). *)
Variable get_scraper : string → Error + Scraper.

(** The loop [for store in stores: ...] of the task.  It has no exception
    handler: the first exception ends it.  The list that
    [scrape_category] returns is dropped. *)
Fixpoint run_stores (stores : list Store.t) : Run :=
  match stores with
  | [] => mkRun [] None
  | store :: rest =>
      match get_scraper (Store.chain_name store) with
      | inl e => mkRun [] (Some e)
      | inr scraper =>
          match scrape_category scraper (StoreContext.of_store store) with
          | inl e => mkRun [store] (Some e)
          | inr _ =>
              let r := run_stores rest in
              mkRun (store :: scraped r) (raised r)
          end
      end
  end.

(** [Store.objects.filter(is_active=True)] *)
Definition active_stores (db : Db.t) : list Store.t :=
  filter (λ s, Store.is_active s = true) (Db.stores db).

(** [scrape_all_stores()]; it reads the [Store] table and writes nothing. *)
Definition scrape_all_stores (db : Db.t) : Run :=
  run_stores (active_stores db).

(** The scrape of a store goes through: its chain has a scraper and the
    scraper's [scrape_category] returns. *)
Definition scrapes (store : Store.t) : Prop :=
  ∃ scraper items,
    get_scraper (Store.chain_name store) = inr scraper
    ∧ scrape_category scraper (StoreContext.of_store store) = inr items.

End Task.

End ScrapeOrchestrator.

(** ** The life of the store table *)

Module System.

(** Modelled from the spec: seeding imports one [Store] row; the database
    refuses a row that breaks a uniqueness constraint of the model and the
    table is then unchanged. *)
Definition seed_store (chain_name address external_store_id url_base : string)
    (latitude longitude : Q) (db : Db.t) : Db.t :=
  let row := Store.mk (Db.next_store_id db) chain_name address
                      external_store_id url_base latitude longitude true in
  if Db.store_conflicts row db then db
  else Db.mk (Db.stores db ++ [row]) (Db.products db) (Db.prices db)
             (Db.next_store_id db + 1) (Db.next_product_id db) (Db.clock db).

(** Modelled from the spec: a location the retailer discontinues is
    deactivated; its row stays. *)
Definition deactivate_store (external_store_id : string) (db : Db.t)
  : Db.t :=
  Db.with_stores
    ((λ s, if String.eqb (Store.external_store_id s) external_store_id
           then Store.set_is_active false s else s) <$> Db.stores db)
    db.

Inductive Step :=
| Seed (chain_name address external_store_id url_base : string)
       (latitude longitude : Q)
| Discontinue (external_store_id : string)
| Reconcile (records : list RawRecord.t) (store : Store.t)
| Save (products : list ScrapedItem.t)
| Scrape (get_scraper : string → Error + ScrapeOrchestrator.Scraper).

Definition step (db : Db.t) (s : Step) : Db.t :=
  match s with
  | Seed c a e u la lo => seed_store c a e u la lo db
  | Discontinue e => deactivate_store e db
  | Reconcile records store => (PriceReconciler.reconcile records store db).2
  | Save products => (PriceReconciler.save_loop products db).2
  | Scrape get_scraper =>
      (* the task reads the store table and writes nothing *)
      let _ := ScrapeOrchestrator.scrape_all_stores get_scraper db in db
  end.

Definition run (steps : list Step) : Db.t := foldl step Db.empty steps.

(** What identifies a store row. *)
Definition store_key (s : Store.t) : Z * string * string * string :=
  (Store.id s, Store.chain_name s, Store.address s,
   Store.external_store_id s).

(** The two uniqueness invariants of the [Store] table. *)
Definition unique_stores (db : Db.t) : Prop :=
  NoDup (Store.external_store_id <$> Db.stores db)
  ∧ NoDup ((λ s, (Store.chain_name s, Store.address s)) <$> Db.stores db).

End System.

(* ===================================================================== *)
(** * Scenarios                                                           *)
(* ===================================================================== *)

(** Concrete data: the mock stores of the map screen, the test store of the
    end-to-end scenario, and a small run of the orchestrator. *)
Module Scenario.

(** The mock stores of the basket mode (screens/MapScreen). *)
Definition mockStores : list MapScreen.Store :=
  [ MapScreen.mkStore 1 "Фора" 49.85 24.03 243.27 52.40 "1.2 км";
    MapScreen.mkStore 2 "АТБ-Маркет" 49.832 24.015 268.50 25.20 "0.8 км";
    MapScreen.mkStore 3 "Сільпо" 49.845 24.008 312.80 0 "1.5 км" ].

Definition test_store : Store.t :=
  Store.mk 1 "ATB" "Test St 1" "atb-test-1" "https://atbmarket.com"
           49.844 24.025 true.

Definition raw (name : string) (price : Q) : RawRecord.t :=
  RawRecord.mk (Some "ATB") (Some "atb-test-1") name price true None None.

Definition seed_test_store : System.Step :=
  System.Seed "ATB" "Test St 1" "atb-test-1" "https://atbmarket.com"
              49.844 24.025.

(** Run 1 prices the products A, B and C; run 2 finds only A and B. *)
Definition run1 : list RawRecord.t := [raw "A" 10; raw "B" 20; raw "C" 30.5].
Definition run2 : list RawRecord.t := [raw "A" 11; raw "B" 20].

Definition db_after_run1 : Db.t :=
  System.run [seed_test_store; System.Reconcile run1 test_store].

Definition product_C : Product.t := Product.mk 3 "C" None None None.


(** The test store is seeded twice, a second location is seeded, and the
    test store is then discontinued. *)
Definition store_steps : list System.Step :=
  [ seed_test_store; seed_test_store;
    System.Seed "ATB" "Test St 2" "atb-test-2" "https://atbmarket.com"
                49.85 24.03;
    System.Discontinue "atb-test-1" ].

(** Milk is added twice, decremented far below one, bread is added and
    its quantity typed in. *)
Definition milk : Cart.Product :=
  Cart.mkProduct 1 "Milk" (JsNumber.literal 35.5) "ATB".

Definition bread : Cart.Product :=
  Cart.mkProduct 2 "Bread" (JsNumber.of_Z 20) "ATB".

Definition cart_ops : list Cart.Op :=
  [ Cart.AddToCart (Some milk);
    Cart.AddToCart (Some milk);
    Cart.UpdateQuantity 1 (JsNumber.of_Z (-5));
    Cart.AddToCart (Some bread);
    Cart.SetQuantity 2 (JsNumber.of_Z 7) ].

(** Milk is added and its quantity changed by NaN. *)
Definition cart_ops_NaN : list Cart.Op :=
  [ Cart.AddToCart (Some milk); Cart.UpdateQuantity 1 JsNumber.NaN ].

(** Milk is added and its quantity typed in as 9007199254740992, which is
    2^53. *)
Definition cart_ops_2_53 : list Cart.Op :=
  [ Cart.AddToCart (Some milk); Cart.SetQuantity 1 (JsNumber.of_Z (2 ^ 53)) ].

Definition last_row_C : Price.t := Price.mk 3 1 30.5 true 2.

(** Three active stores: an ATB store, a Silpo store whose id the Silpo
    scraper does not know, and a store of a chain without scraper. *)
Definition atb_store : Store.t :=
  Store.mk 1 "АТБ" "вул. Городоцька, 48" "atb-lviv-gorodocka"
           "https://atbmarket.com" 49.844 24.025 true.

Definition silpo_store : Store.t :=
  Store.mk 2 "Сільпо" "вул. Стрийська, 30" "silpo-lviv-king-cross"
           "https://silpo.ua" 49.8 24.0 true.

Definition unknown_store : Store.t :=
  Store.mk 3 "Unknown" "вул. Наукова, 1" "unknown-1" "https://example.com"
           49.8 24.01 true.

Definition three_stores : Db.t :=
  Db.mk [atb_store; silpo_store; unknown_store] [] [] 4 1 0.

(** The store without scraper comes first. *)
Definition unknown_first : Db.t :=
  Db.mk [unknown_store; atb_store] [] [] 4 1 0.

(** Two scrapers for the runs of the scenario.  Each sets the store
    context in a fresh session, as the base class asks, and raises what
    that raises; the ATB scraper then returns one dict and the Silpo
    scraper none. *)
Definition atb_scraper : ScrapeOrchestrator.Scraper :=
  ScrapeOrchestrator.mkScraper
    (λ ctx,
       match (StoreContextInjector.ATB.set_store_context ctx
                StoreContextInjector.fresh_session).1 with
       | inl e => inl e
       | inr _ =>
           inr [ScrapedItem.mk (Some "Молоко")
                               (Some (StoreContext.external_store_id ctx))
                               (Some 45.99%Q) (Some true)]
       end).

Definition silpo_scraper : ScrapeOrchestrator.Scraper :=
  ScrapeOrchestrator.mkScraper
    (λ ctx,
       match (StoreContextInjector.Silpo.set_store_context ctx
                StoreContextInjector.fresh_session).1 with
       | inl e => inl e
       | inr _ => inr []
       end).

(** A [get_scraper] that knows the two chains and raises for any other. *)
Definition get_scraper (chain_name : string)
  : Error + ScrapeOrchestrator.Scraper :=
  if String.eqb chain_name "АТБ" then inr atb_scraper
  else if String.eqb chain_name "Сільпо" then inr silpo_scraper
  else inl (KeyError chain_name).

End Scenario.

(* ===================================================================== *)
(** * The cart on the screens (CartContext.js, CartScreen.js)             *)
(* ===================================================================== *)

Module CartView.
Import JsNumber Cart.

(** The price offer of a product of the feed,
    [{ price, store_name }]. *)
Record Offer := mkOffer {
  offer_price : number;
  store_name : string;
}.

(** A product of the feed; [cheapest_option] is missing when no store has
    the product. *)
Record FeedItem := mkFeedItem {
  feed_id : Z;
  feed_name : string;
  cheapest_option : option Offer;
}.

(** [handleAddToCart(item)] of the product feed. *)
Definition handleAddToCart (item : FeedItem) (items : list Item)
  : list Item :=
  match cheapest_option item with
  | Some offer =>
      addToCart (Some (mkProduct (feed_id item) (feed_name item)
                                 (offer_price offer) (store_name offer)))
                items
  | None =>
      addToCart (Some (mkProduct (feed_id item) (feed_name item) zero
                                 "Unknown"))
                items
  end.

(** The two buttons of a cart line: [onUpdateQuantity(item.id, -1)] and
    [onUpdateQuantity(item.id, 1)]. *)
Definition press_minus (item : Item) (items : list Item) : list Item :=
  updateQuantity (id item) (of_Z (-1)) items.

Definition press_plus (item : Item) (items : list Item) : list Item :=
  updateQuantity (id item) one items.

(** What the cart icon of the feed shows:
    [itemCount > 0 && (itemCount > 99 ? '99+' : itemCount)]. *)
Inductive Badge :=
| NoBadge
| ManyBadge
| CountBadge (count : number).

Definition cart_badge (items : list Item) : Badge :=
  let n := itemCount items in
  if ltb zero n then (if ltb (of_Z 99) n then ManyBadge else CountBadge n)
  else NoBadge.

(** The quantities of the items, as integers where they are integers. *)
Definition quantities (items : list Item) : list (Z * option Z) :=
  (λ i, (id i, to_Z (quantity i))) <$> items.

(** The quantities that the buttons and the feed make: integers from 1
    on, here below 2^53, up to which counting by one is exact. *)
Definition whole (x : number) : Prop := ∃ n, x = of_Z n ∧ 1 ≤ n < 2 ^ 53.

(** The items have the integer quantities [ns], all from 1 on. *)
Definition whole_quantities (items : list Item) (ns : list Z) : Prop :=
  quantity <$> items = of_Z <$> ns ∧ Forall (λ n, 1 ≤ n) ns.

Definition total_of (ns : list Z) : Z := foldr Z.add 0 ns.

End CartView.

(** Data for the statements on the cart screens and the store list. *)
Module Examples.

Definition milk : CartView.FeedItem :=
  CartView.mkFeedItem 7 "Молоко"
    (Some (CartView.mkOffer (JsNumber.literal 35.5) "АТБ")).

Definition cart_of_two : list Cart.Item :=
  [Cart.mkItem 1 "Milk" (JsNumber.literal 35.5) "ATB" (JsNumber.of_Z 2);
   Cart.mkItem 2 "Bread" (JsNumber.of_Z 20) "ATB" JsNumber.one].

(** The four demo stores of the explore mode, at the origin. *)
Definition demo_stores : list MapScreen.Store :=
  [ MapScreen.mkStore 1 "АТБ-Маркет" 0.008 0.006 845.20 52.40 "0.9 км";
    MapScreen.mkStore 2 "Сільпо" (-0.005) (-0.003) 923.40 28.20 "0.5 км";
    MapScreen.mkStore 3 "Фора" 0.012 (-0.008) 789.90 65.30 "1.4 км";
    MapScreen.mkStore 4 "Novus" (-0.015) 0.01 956.00 18.50 "1.8 км" ].

End Examples.

(* ===================================================================== *)
(** * Facts about lists with distinct keys                                *)
(* ===================================================================== *)

Section Keys.
Context {A B : Type} (f : A → B).

Lemma NoDup_key_lookup (l : list A) i j x y :
  NoDup (f <$> l) → l !! i = Some x → l !! j = Some y → f x = f y → i = j.
Proof.
  intros Hn Hi Hj Hxy.
  apply (NoDup_lookup (f <$> l) i j (f x) Hn).
  - by rewrite list_lookup_fmap, Hi.
  - by rewrite list_lookup_fmap, Hj, Hxy.
Qed.

Lemma NoDup_key_inj (l : list A) x y :
  NoDup (f <$> l) → x ∈ l → y ∈ l → f x = f y → x = y.
Proof.
  intros Hn [i Hi]%list_elem_of_lookup [j Hj]%list_elem_of_lookup Hxy.
  assert (i = j) by eauto using NoDup_key_lookup. congruence.
Qed.
End Keys.

(** Scanning a list from the left. *)

Lemma drop_while_nil_iff {A} (p : A → bool) l :
  drop_while p l = [] ↔ Forall (λ x, p x = true) l.
Proof.
  induction l as [|x l IH]; simpl; [by split|].
  destruct (p x) eqn:E.
  - rewrite IH. split; [by constructor|]. by inversion 1.
  - split; [done|]. inversion 1; congruence.
Qed.

Lemma drop_while_suffix {A} (p : A → bool) l : drop_while p l `suffix_of` l.
Proof.
  induction l as [|x l IH]; simpl; [done|].
  destruct (p x); [by apply suffix_cons_r|done].
Qed.

Lemma drop_while_head {A} (p : A → bool) l x l' :
  drop_while p l = x :: l' → p x = false.
Proof.
  induction l as [|y l IH]; simpl; [done|].
  destruct (p y) eqn:E; [done|]. by intros [= <- _].
Qed.

Lemma drop_while_app_all {A} (p : A → bool) l1 l2 :
  Forall (λ x, p x = true) l1 → drop_while p (l1 ++ l2) = drop_while p l2.
Proof. induction 1 as [|x l Hx _ IH]; simpl; [done|]. by rewrite Hx. Qed.

Lemma drop_while_stop {A} (p : A → bool) x l :
  p x = false → drop_while p (x :: l) = x :: l.
Proof. intros H. simpl. by rewrite H. Qed.

Lemma take_while_app_stop {A} (p : A → bool) l1 x l2 :
  Forall (λ x, p x = true) l1 → p x = false →
  take_while p (l1 ++ x :: l2) = l1.
Proof.
  intros H Hx. induction H as [|y l Hy _ IH]; simpl.
  - by rewrite Hx.
  - by rewrite Hy, IH.
Qed.

Lemma take_while_all {A} (p : A → bool) l :
  Forall (λ x, p x = true) l → take_while p l = l.
Proof. induction 1 as [|y l Hy _ IH]; simpl; [done|]. by rewrite Hy, IH. Qed.

(* ===================================================================== *)
(** * Properties of the rounding of numbers                               *)
(* ===================================================================== *)

Module JsNumberProofs.
Import JsNumber.

Lemma div_nearest_even_ge n d : n / d ≤ div_nearest_even n d.
Proof.
  unfold div_nearest_even.
  destruct (2 * (n mod d) ?= d); [destruct (Z.even _)|..]; lia.
Qed.

Lemma div_nearest_even_1 n : div_nearest_even n 1 = n.
Proof.
  unfold div_nearest_even. rewrite Z.mod_1_r, Z.div_1_r. reflexivity.
Qed.

Lemma floor_log2_lower n d :
  0 < d → d ≤ n →
  0 ≤ floor_log2 n d ∧ d * 2 ^ floor_log2 n d ≤ n.
Proof.
  intros Hd Hn. unfold floor_log2.
  pose proof (Z.log2_le_mono d n Hn) as Hk.
  pose proof (Z.log2_nonneg d) as Hd0.
  destruct (Z.log2_spec d Hd) as [_ Hd2].
  destruct (Z.log2_spec n ltac:(lia)) as [Hn1 _].
  set (k := Z.log2 n - Z.log2 d) in *.
  rewrite (proj2 (Z.leb_le 0 k)) by lia.
  destruct (Z.leb_spec (d * 2 ^ k) n) as [H|H]; [lia|].
  assert (k ≠ 0) by (intros E; rewrite E in H; simpl in H; lia).
  split; [lia|].
  assert (2 ^ Z.succ (Z.log2 d) * 2 ^ (k - 1) = 2 ^ Z.log2 n) as E.
  { rewrite <- Z.pow_add_r by lia. f_equal. lia. }
  assert (0 < 2 ^ (k - 1)) by (apply Z.pow_pos_nonneg; lia).
  nia.
Qed.

Lemma Qc_le_Q2Qc (z : Z) (q : Q) :
  (inject_Z z <= q)%Q → (Qc_of_Z z ≤ Q2Qc q)%Qc.
Proof.
  intros H. unfold Qcle. simpl. by rewrite Qred_correct.
Qed.

Lemma pow2_pos_exp s : 0 ≤ s → pow2 s = inject_Z (2 ^ s).
Proof. intros H. unfold pow2. by rewrite (proj2 (Z.leb_le 0 s)). Qed.

Lemma pow2_neg_exp s : s < 0 → pow2 s = 1 # Z.to_pos (2 ^ (- s)).
Proof. intros H. unfold pow2. by rewrite (proj2 (Z.leb_gt 0 s)). Qed.

(** Rounding never gives NaN. *)
Lemma round_pos_not_NaN n d : round_pos n d ≠ NaN.
Proof. unfold round_pos. by destruct (_ && _). Qed.

Lemma round_not_NaN x : round x ≠ NaN.
Proof.
  unfold round. destruct (Qnum x) as [|p|p]; [done|apply round_pos_not_NaN|].
  pose proof (round_pos_not_NaN (Z.pos p) (Z.pos (Qden x))).
  by destruct (round_pos _ _).
Qed.

(** A real number that is at least 1 rounds to a number that is at least
    1. *)
Lemma round_pos_ge_one n d :
  0 < d → d ≤ n → leb one (round_pos n d) = true.
Proof.
  intros Hd Hn. destruct (floor_log2_lower n d Hd Hn) as [He Hlow].
  unfold round_pos. set (e := floor_log2 n d) in *.
  rewrite Z.max_l by lia. set (s := e - 52).
  destruct (Z.leb_spec 0 s) as [Hs|Hs]; simpl.
  - assert (1 ≤ div_nearest_even n (d * 2 ^ s)) as Hm.
    { etrans; [|apply div_nearest_even_ge].
      assert (0 < 2 ^ s) by (apply Z.pow_pos_nonneg; lia).
      assert (2 ^ s ≤ 2 ^ e) by (apply Z.pow_le_mono_r; lia).
      apply Z.div_le_lower_bound; nia. }
    destruct (2 ^ 1024 <=? _); [done|].
    apply bool_decide_eq_true. apply Qc_le_Q2Qc.
    rewrite pow2_pos_exp by done. rewrite <- inject_Z_mult.
    rewrite <- Zle_Qle.
    assert (0 < 2 ^ s) by (apply Z.pow_pos_nonneg; lia). nia.
  - assert (0 < 2 ^ (- s)) as Hp by (apply Z.pow_pos_nonneg; lia).
    assert (2 ^ (- s) ≤ div_nearest_even (n * 2 ^ (- s)) d) as Hm.
    { etrans; [|apply div_nearest_even_ge].
      apply Z.div_le_lower_bound; nia. }
    apply bool_decide_eq_true. apply Qc_le_Q2Qc.
    rewrite pow2_neg_exp by done.
    unfold Qle, Qmult, inject_Z. simpl.
    rewrite Pos.mul_1_l, Z2Pos.id by done. lia.
Qed.

Lemma round_ge_one (x : Qc) :
  (1 ≤ x)%Qc → leb one (round x) = true.
Proof.
  intros H. unfold Qcle, Qle in H. simpl in H. unfold round.
  destruct x as [[n d] Hc]. simpl in *.
  destruct n as [|p|p]; [lia| |lia].
  apply round_pos_ge_one; lia.
Qed.

Lemma Finite_eq (a b : Qc) : (a == b)%Q → Finite a = Finite b.
Proof. intros H. f_equal. by apply Qc_is_canon. Qed.

Lemma floor_log2_int z : 0 < z → floor_log2 z 1 = Z.log2 z.
Proof.
  intros Hz. unfold floor_log2. change (Z.log2 1) with 0.
  rewrite Z.sub_0_r, Z.mul_1_l.
  pose proof (Z.log2_nonneg z).
  rewrite (proj2 (Z.leb_le 0 (Z.log2 z))) by done.
  destruct (Z.log2_spec z Hz) as [H1 _].
  apply Z.leb_le in H1. by rewrite H1.
Qed.

(** Integers of magnitude up to 2^53 are binary64 values. *)
Lemma round_pos_int z :
  0 < z → z ≤ 2 ^ 53 → round_pos z 1 = of_Z z.
Proof.
  intros Hz Hle.
  destruct (decide (z = 2 ^ 53)) as [->|Hne].
  { apply Finite_eq. vm_compute. reflexivity. }
  assert (Z.log2 z < 53) as Hlog by (apply Z.log2_lt_pow2; lia).
  pose proof (Z.log2_nonneg z) as Hlog0.
  unfold round_pos. rewrite floor_log2_int by done.
  rewrite Z.max_l by lia. set (s := Z.log2 z - 52).
  destruct (Z.leb_spec 0 s) as [Hs|Hs]; simpl.
  - assert (s = 0) as -> by lia. rewrite Z.mul_1_l, div_nearest_even_1.
    rewrite (proj2 (Z.leb_gt _ _)).
    2:{ rewrite Z.mul_1_r. etrans; [|apply (Z.pow_lt_mono_r 2 53 1024); lia].
        lia. }
    apply Finite_eq. simpl. rewrite Qred_correct.
    unfold pow2. simpl. change (inject_Z (2 ^ 0)) with 1%Q.
    apply Qmult_1_r.
  - rewrite div_nearest_even_1.
    assert (0 < 2 ^ (- s)) as Hp by (apply Z.pow_pos_nonneg; lia).
    apply Finite_eq. simpl. rewrite Qred_correct.
    rewrite pow2_neg_exp by done.
    unfold Qeq, Qmult, inject_Z. simpl.
    rewrite Pos.mul_1_l, Z2Pos.id by done. lia.
Qed.

Lemma round_int z :
  Z.abs z ≤ 2 ^ 53 → round (Qc_of_Z z) = of_Z z.
Proof.
  intros H. unfold round. simpl.
  destruct z as [|p|p]; simpl.
  - apply Finite_eq. reflexivity.
  - apply round_pos_int; lia.
  - rewrite round_pos_int by lia. unfold of_Z, neg.
    by rewrite <- Z2Qc_inj_opp.
Qed.

(** Sums of integers are exact up to 2^53. *)
Lemma add_of_Z a b :
  Z.abs (a + b) ≤ 2 ^ 53 → add (of_Z a) (of_Z b) = of_Z (a + b).
Proof.
  intros H. unfold add, of_Z. rewrite <- Z2Qc_inj_add. by apply round_int.
Qed.

End JsNumberProofs.

(* ===================================================================== *)
(** * Properties of the shopping cart                                     *)
(* ===================================================================== *)

Module CartProofs.
Import JsNumber Cart.

Lemma with_quantity_id q i : id (with_quantity q i) = id i.
Proof. reflexivity. Qed.

Lemma at_least_one_one : at_least_one one.
Proof. by apply bool_decide_eq_true. Qed.

(** A number that is at least 1 is neither NaN nor -Infinity, and it is
    truthy. *)
Lemma at_least_one_cases x :
  at_least_one x →
  x = Infinity false ∨ ∃ q, x = Finite q ∧ (1 ≤ q)%Qc.
Proof.
  unfold at_least_one. destruct x as [|[]|q]; simpl; try done.
  - by left.
  - intros H%bool_decide_eq_true. right. exists q. split; [done|].
    by rewrite <- Z2Qc_inj_1.
Qed.

Lemma at_least_one_of_Z n : at_least_one (of_Z n) ↔ 1 ≤ n.
Proof.
  unfold at_least_one. simpl. rewrite bool_decide_eq_true.
  symmetry. apply Z2Qc_inj_le.
Qed.

Lemma at_least_one_truthy x : at_least_one x → truthy x = true.
Proof.
  intros [->|(q & -> & Hq)]%at_least_one_cases; [done|]. simpl.
  apply bool_decide_eq_true. intros ->. by apply Hq.
Qed.

(** [Math.max(1, x)] is at least 1 unless [x] is NaN. *)
Lemma max_one_at_least_one x : x ≠ NaN → at_least_one (max one x).
Proof.
  intros Hx. unfold at_least_one, max, one, of_Z.
  destruct x as [|b|q]; [done|..].
  - by destruct b.
  - destruct (leb (Finite (Qc_of_Z 1)) (Finite q)) eqn:E; [done|].
    by apply bool_decide_eq_true.
Qed.

(** One more than a quantity of at least 1 is at least 1. *)
Lemma add_one_at_least_one x :
  at_least_one x → at_least_one (add x one).
Proof.
  intros [->|(q & -> & Hq)]%at_least_one_cases; [done|].
  unfold at_least_one. simpl. apply JsNumberProofs.round_ge_one.
  rewrite Z2Qc_inj_1.
  apply (Qcle_trans _ (1 + 0)); [by rewrite Qcplus_0_r|].
  rewrite (Qcplus_comm q). apply Qcplus_le_mono_l.
  by apply (Qcle_trans _ 1).
Qed.

(** A quantity of at least 1 plus a usable change is not NaN. *)
Lemma add_usable_not_NaN x change :
  at_least_one x → usable_change change → add x change ≠ NaN.
Proof.
  intros [->|(q & -> & Hq)]%at_least_one_cases [H1 H2].
  - destruct change as [|[]|c]; done.
  - destruct change as [|b|c]; [done..|]. simpl.
    apply JsNumberProofs.round_not_NaN.
Qed.

Lemma validQuantity_at_least_one parsed : at_least_one (validQuantity parsed).
Proof.
  unfold validQuantity. apply max_one_at_least_one. unfold or_else.
  destruct parsed as [|b|q]; simpl; [done..|].
  by destruct (bool_decide _).
Qed.

(** A parsed quantity of at least 1 is the quantity that is set. *)
Lemma validQuantity_id parsed :
  at_least_one parsed → validQuantity parsed = parsed.
Proof.
  intros H. unfold validQuantity, or_else.
  rewrite (at_least_one_truthy _ H).
  unfold at_least_one in H. unfold max.
  destruct parsed as [|b|q]; [done|..]; by rewrite H.
Qed.

(** [findIndex] either returns -1, and then no item has the id, or the
    index of the first item with the id. *)
Lemma findIndex_spec pid (items : list Item) :
  (findIndex pid items = -1 ∧ Forall (λ i, id i ≠ pid) items)
  ∨ (∃ k x, findIndex pid items = Z.of_nat k
            ∧ items !! k = Some x ∧ id x = pid).
Proof.
  unfold findIndex.
  destruct (list_find _ items) as [[k x]|] eqn:E.
  - right. apply list_find_Some in E as (Hk & Hx & _). eauto.
  - left. split; [done|]. by apply list_find_None in E.
Qed.

Lemma ids_alter (g : Item → Item) (k : nat) (items : list Item) :
  (∀ x, id (g x) = id x) → id <$> alter g k items = id <$> items.
Proof.
  intros Hg. revert k.
  induction items as [|x l IH]; intros [|k]; csimpl; try done.
  - by rewrite Hg.
  - by rewrite IH.
Qed.

Lemma ids_fmap (g : Item → Item) (items : list Item) :
  (∀ x, id (g x) = id x) → id <$> (g <$> items) = id <$> items.
Proof.
  intros Hg. rewrite <- list_fmap_compose.
  apply list_fmap_ext. intros i x _. apply Hg.
Qed.

Lemma addToCart_ok product items :
  cart_ok items → cart_ok (addToCart product items).
Proof.
  intros [Hq Hn]. destruct product as [p|]; simpl; [|done].
  destruct (p_id p =? 0); [done|].
  destruct (findIndex_spec (p_id p) items) as [[-> Hnone]|(k & x & -> & Hk & Hx)].
  - simpl. split.
    + apply Forall_app. split; [done|]. apply Forall_singleton.
      apply at_least_one_one.
    + rewrite fmap_app. apply NoDup_app. split_and!; [done| |].
      * intros y Hy Hin. apply list_elem_of_fmap in Hy as (z & -> & Hz).
        simpl in Hin. apply list_elem_of_singleton in Hin.
        rewrite Forall_forall in Hnone. by apply (Hnone z).
      * apply NoDup_singleton.
  - rewrite (proj2 (Z.leb_le 0 (Z.of_nat k))) by lia.
    rewrite Nat2Z.id. split.
    + apply Forall_alter; [done|]. intros y _ Hy.
      by apply add_one_at_least_one.
    + by rewrite ids_alter.
Qed.

Lemma removeFromCart_ok pid items :
  cart_ok items → cart_ok (removeFromCart pid items).
Proof.
  intros [Hq Hn]. unfold removeFromCart. split.
  - apply Forall_forall. intros x Hx. apply list_elem_of_filter in Hx as [_ Hx].
    rewrite Forall_forall in Hq. by apply Hq.
  - eapply sublist_NoDup; [exact Hn|].
    apply fmap_sublist, sublist_filter.
Qed.

Lemma updateQuantity_ok pid change items :
  usable_change change →
  cart_ok items → cart_ok (updateQuantity pid change items).
Proof.
  intros Hc [Hq Hn]. unfold updateQuantity. split.
  - apply Forall_fmap. eapply Forall_impl; [exact Hq|].
    intros x Hx. unfold compose. simpl in *.
    destruct (id x =? pid); simpl; [|done].
    by apply max_one_at_least_one, add_usable_not_NaN.
  - rewrite ids_fmap; [done|]. intros x. by destruct (id x =? pid).
Qed.

Lemma setQuantity_ok pid parsed items :
  cart_ok items → cart_ok (setQuantity pid parsed items).
Proof.
  intros [Hq Hn]. unfold setQuantity. split.
  - apply Forall_fmap. eapply Forall_impl; [exact Hq|].
    intros x Hx. unfold compose. simpl in *.
    destruct (id x =? pid); simpl; [|done].
    apply validQuantity_at_least_one.
  - rewrite ids_fmap; [done|]. intros x. by destruct (id x =? pid).
Qed.

Lemma apply_op_ok items o :
  usable o → cart_ok items → cart_ok (apply_op items o).
Proof.
  destruct o; simpl; intros Hu.
  - apply addToCart_ok.
  - apply removeFromCart_ok.
  - by apply updateQuantity_ok.
  - apply setQuantity_ok.
  - intros _. split; [constructor|]. simpl. apply NoDup_nil_2.
Qed.

Lemma run_ok ops : Forall usable ops → cart_ok (run ops).
Proof.
  unfold run. induction ops as [|o ops IH] using rev_ind; intros Hu.
  - split; [constructor|]. simpl. apply NoDup_nil_2.
  - apply Forall_app in Hu as [Hu Ho]. rewrite Forall_singleton in Ho.
    rewrite foldl_snoc. apply apply_op_ok; auto.
Qed.

(** Adding a product whose id is in the cart changes one quantity and
    nothing else. *)
Lemma addToCart_present p (items : list Item) :
  p_id p ≠ 0 → p_id p ∈ id <$> items →
  ∃ k x, items !! k = Some x ∧ id x = p_id p
         ∧ addToCart (Some p) items
           = <[k := with_quantity (add (quantity x) one) x]> items.
Proof.
  intros Hnz Hin. simpl.
  rewrite (proj2 (Z.eqb_neq (p_id p) 0)) by done.
  destruct (findIndex_spec (p_id p) items) as [[_ Hnone]|(k & x & -> & Hk & Hx)].
  - exfalso. apply list_elem_of_fmap in Hin as (z & Hz & Hzin).
    rewrite Forall_forall in Hnone. by apply (Hnone z).
  - exists k, x. split_and!; [done..|].
    rewrite (proj2 (Z.leb_le 0 (Z.of_nat k))) by lia.
    rewrite Nat2Z.id.
    clear Hin. revert k Hk.
    induction items as [|y l IH]; intros [|k] Hk; simpl in *; try done.
    + by simplify_eq.
    + f_equal. by apply IH.
Qed.

(** C9 as stated fails on the code: a change of NaN, which is also what an
    [undefined] change adds as, goes through [Math.max] and leaves the
    item with the quantity NaN, which is not at least 1.  And at the
    quantity 2^53 the sum [quantity + 1] rounds back to 2^53: adding the
    product again leaves the quantity as it was. *)
Lemma NaN_change_breaks_quantity :
  quantity <$> run Scenario.cart_ops_NaN = [NaN]
  ∧ ¬ cart_ok (run Scenario.cart_ops_NaN)
  ∧ CartView.quantities (run Scenario.cart_ops_2_53) = [(1, Some (2 ^ 53))]
  ∧ CartView.quantities (addToCart (Some Scenario.milk)
                                   (run Scenario.cart_ops_2_53))
    = [(1, Some (2 ^ 53))].
Proof.
  assert (quantity <$> run Scenario.cart_ops_NaN = [NaN]) as E
    by reflexivity.
  split_and!; [done| |vm_compute; reflexivity..].
  intros [Hq _].
  destruct (run Scenario.cart_ops_NaN) as [|x [|y l]]; try discriminate E.
  injection E as E. rewrite Forall_singleton, E in Hq. done.
Qed.

(** C9. After any sequence of cart operations from the empty cart in
    which every change passed to [updateQuantity] is a number other than
    NaN and -Infinity, every item has a quantity of at least 1 and the ids
    of the items are pairwise distinct.  Adding a product whose id is in
    the cart replaces the quantity of that item, in place, by the sum
    [quantity + 1], which is at least 1 and, for an integer quantity below
    2^53, that integer plus one; nothing is appended.  [updateQuantity]
    with such a change and [setQuantity] leave the item of the given id
    with a quantity clamped to at least 1. *)
Theorem cart_quantities_and_ids (ops : list Op) :
  Forall usable ops →
  let items := run ops in
  Forall (λ i, at_least_one (quantity i)) items
  ∧ NoDup (id <$> items)
  ∧ (∀ p, p_id p ≠ 0 → p_id p ∈ id <$> items →
       ∃ k x, items !! k = Some x ∧ id x = p_id p
              ∧ addToCart (Some p) items
                = <[k := with_quantity (add (quantity x) one) x]> items
              ∧ length (addToCart (Some p) items) = length items
              ∧ at_least_one (add (quantity x) one)
              ∧ (∀ n, quantity x = of_Z n → n < 2 ^ 53 →
                      add (quantity x) one = of_Z (n + 1)))
  ∧ (∀ pid change k x,
       usable_change change → items !! k = Some x → id x = pid →
       updateQuantity pid change items !! k
       = Some (with_quantity (max one (add (quantity x) change)) x)
       ∧ at_least_one (max one (add (quantity x) change)))
  ∧ (∀ pid parsed k x, items !! k = Some x → id x = pid →
       setQuantity pid parsed items !! k
       = Some (with_quantity (validQuantity parsed) x)
       ∧ at_least_one (validQuantity parsed)
       ∧ (at_least_one parsed → validQuantity parsed = parsed)).
Proof.
  intros Hu items. pose proof (run_ok ops Hu) as [Hq Hn].
  fold items in Hq, Hn.
  assert (∀ k x, items !! k = Some x → at_least_one (quantity x)) as Hone.
  { intros k x Hk. rewrite Forall_forall in Hq. apply Hq.
    apply list_elem_of_lookup. eauto. }
  split_and!; [done..| | |].
  - intros p Hnz Hin.
    destruct (addToCart_present p items Hnz Hin) as (k & x & Hk & Hx & ->).
    exists k, x. split_and!; [done..|apply length_insert| |].
    + apply add_one_at_least_one. by apply (Hone k).
    + intros n Hqx Hn53. specialize (Hone k x Hk).
      rewrite Hqx in Hone |- *. apply at_least_one_of_Z in Hone.
      apply JsNumberProofs.add_of_Z. lia.
  - intros pid change k x Hc Hk Hx. split.
    + unfold updateQuantity. rewrite list_lookup_fmap, Hk. simpl.
      by rewrite (proj2 (Z.eqb_eq (id x) pid)).
    + apply max_one_at_least_one, add_usable_not_NaN; [|done].
      by apply (Hone k).
  - intros pid parsed k x Hk Hx. split_and!.
    + unfold setQuantity. rewrite list_lookup_fmap, Hk. simpl.
      by rewrite (proj2 (Z.eqb_eq (id x) pid)).
    + apply validQuantity_at_least_one.
    + apply validQuantity_id.
Qed.

(** The statement at the operations of the scenario. *)
Lemma cart_quantities_and_ids_witness :
  CartView.quantities (run Scenario.cart_ops) = [(1, Some 1); (2, Some 7)]
  ∧ Forall (λ i, at_least_one (quantity i)) (run Scenario.cart_ops)
  ∧ CartView.quantities (addToCart (Some Scenario.bread)
                                   (run Scenario.cart_ops))
    = [(1, Some 1); (2, Some 8)].
Proof.
  destruct (cart_quantities_and_ids Scenario.cart_ops)
    as (Hq & _ & _).
  - repeat constructor; discriminate.
  - split_and!; [reflexivity|exact Hq|reflexivity].
Defined.

End CartProofs.

(* ===================================================================== *)
(** * The cart as the screens use it                                      *)
(* ===================================================================== *)

Module CartViewProofs.
Import JsNumber Cart CartView.

(** [getQuantity] and [isInCart] read the first item of the id. *)
Lemma getQuantity_cons x (l : list Item) pid :
  getQuantity pid (x :: l)
  = if decide (id x = pid) then or_else (quantity x) zero
    else getQuantity pid l.
Proof.
  unfold getQuantity. simpl. case_decide; [done|].
  by destruct (list_find _ l) as [[k y]|].
Qed.

Lemma findIndex_cons x (l : list Item) pid :
  findIndex pid (x :: l)
  = if decide (id x = pid) then 0
    else if 0 <=? findIndex pid l then findIndex pid l + 1 else -1.
Proof.
  unfold findIndex. simpl. case_decide; [done|].
  destruct (list_find _ l) as [[k y]|]; simpl; [|done].
  rewrite (proj2 (Z.leb_le 0 (Z.of_nat k))) by lia. lia.
Qed.

Lemma findIndex_range pid (l : list Item) :
  findIndex pid l = -1 ∨ 0 ≤ findIndex pid l.
Proof.
  unfold findIndex. destruct (list_find _ l) as [[k y]|]; [right; lia|by left].
Qed.

(** [addToCart] walks to the first item of the id. *)
Lemma addToCart_cons p x (l : list Item) :
  p_id p ≠ 0 →
  addToCart (Some p) (x :: l)
  = if decide (id x = p_id p)
    then with_quantity (add (quantity x) one) x :: l
    else x :: addToCart (Some p) l.
Proof.
  intros Hnz. unfold addToCart.
  rewrite (proj2 (Z.eqb_neq (p_id p) 0)) by done.
  cbv zeta. rewrite findIndex_cons.
  case_decide; [reflexivity|].
  destruct (findIndex_range (p_id p) l) as [E|E].
  - rewrite E. reflexivity.
  - rewrite (proj2 (Z.leb_le 0 (findIndex (p_id p) l))) by done.
    rewrite (proj2 (Z.leb_le 0 (findIndex (p_id p) l + 1))) by lia.
    replace (Z.to_nat (findIndex (p_id p) l + 1))
      with (S (Z.to_nat (findIndex (p_id p) l))) by lia.
    reflexivity.
Qed.

Lemma addToCart_nil p : p_id p ≠ 0 → addToCart (Some p) [] = [new_item p].
Proof.
  intros Hnz. unfold addToCart.
  by rewrite (proj2 (Z.eqb_neq (p_id p) 0)) by done.
Qed.

Lemma or_else_at_least_one x : at_least_one x → or_else x zero = x.
Proof.
  intros H. unfold or_else. by rewrite CartProofs.at_least_one_truthy.
Qed.

Lemma add_zero_one : add zero one = one.
Proof. by apply (JsNumberProofs.add_of_Z 0 1). Qed.

Lemma getQuantity_after_add p (items : list Item) pid :
  p_id p ≠ 0 → Forall (λ i, at_least_one (quantity i)) items →
  getQuantity pid (addToCart (Some p) items)
  = if decide (pid = p_id p) then add (getQuantity pid items) one
    else getQuantity pid items.
Proof.
  intros Hnz Hq. induction Hq as [|x l Hx Hq IH].
  - rewrite addToCart_nil by done. rewrite getQuantity_cons.
    change (id (new_item p)) with (p_id p).
    change (quantity (new_item p)) with one.
    change (getQuantity pid []) with zero.
    rewrite add_zero_one.
    rewrite (or_else_at_least_one _ CartProofs.at_least_one_one).
    destruct (decide (p_id p = pid)), (decide (pid = p_id p)); congruence.
  - rewrite addToCart_cons by done.
    destruct (decide (id x = p_id p)) as [E|E].
    + rewrite !getQuantity_cons.
      change (id (with_quantity (add (quantity x) one) x)) with (id x).
      change (quantity (with_quantity (add (quantity x) one) x))
        with (add (quantity x) one).
      rewrite (or_else_at_least_one _ Hx).
      rewrite (or_else_at_least_one _
                 (CartProofs.add_one_at_least_one _ Hx)).
      destruct (decide (id x = pid)), (decide (pid = p_id p)); congruence.
    + rewrite !getQuantity_cons, IH.
      destruct (decide (id x = pid)), (decide (pid = p_id p)); congruence.
Qed.

(** X1. On a cart whose quantities are at least 1, [addToCart] of a
    product with a usable id replaces the quantity that [getQuantity] reads
    for that id by the sum [quantity + 1] (from 0 for a product that was
    not in the cart), and leaves the quantity of every other id as it was.
    For an integer quantity below 2^53 the sum is that integer plus one.  A
    missing product or the id 0 leaves the cart as it is. *)
Theorem getQuantity_addToCart (p : Product) (items : list Item) (pid : Z) :
  Forall (λ i, at_least_one (quantity i)) items →
  (p_id p ≠ 0 →
   getQuantity pid (addToCart (Some p) items)
   = (if decide (pid = p_id p) then add (getQuantity pid items) one
      else getQuantity pid items)
   ∧ (∀ n, getQuantity (p_id p) items = of_Z n → 0 ≤ n < 2 ^ 53 →
        getQuantity (p_id p) (addToCart (Some p) items) = of_Z (n + 1)))
  ∧ (p_id p = 0 → addToCart (Some p) items = items)
  ∧ addToCart None items = items.
Proof.
  intros Hq. split_and!.
  - intros Hnz. split; [by apply getQuantity_after_add|].
    intros n Hn Hr. rewrite getQuantity_after_add by done.
    destruct (decide (p_id p = p_id p)); [|done]. rewrite Hn.
    apply JsNumberProofs.add_of_Z. lia.
  - intros H. unfold addToCart. by rewrite H.
  - done.
Qed.

Lemma getQuantity_addToCart_witness :
  to_Z (getQuantity 2 (addToCart (Some Scenario.bread)
                                 Examples.cart_of_two)) = Some 2
  ∧ getQuantity 1 (addToCart (Some Scenario.bread) Examples.cart_of_two)
    = getQuantity 1 Examples.cart_of_two.
Proof.
  assert (Forall (λ i, at_least_one (quantity i)) Examples.cart_of_two)
    as Hq by (repeat constructor).
  destruct (getQuantity_addToCart Scenario.bread Examples.cart_of_two 2 Hq)
    as [H2 _].
  destruct (getQuantity_addToCart Scenario.bread Examples.cart_of_two 1 Hq)
    as [H1 _].
  split.
  - destruct H2 as [_ H2]; [discriminate|].
    assert (0 ≤ 1 < 2 ^ 53) as Hr by lia.
    pose proof (H2 1 eq_refl Hr) as E.
    change (p_id Scenario.bread) with 2 in E. by rewrite E.
  - destruct H1 as [H1 _]; [discriminate|]. exact H1.
Defined.

Lemma isInCart_spec pid (items : list Item) :
  isInCart pid items = true ↔ pid ∈ id <$> items.
Proof.
  unfold isInCart. rewrite existsb_exists. split.
  - intros (x & Hin & Hx). apply Z.eqb_eq in Hx.
    apply list_elem_of_fmap. exists x. by rewrite list_elem_of_In.
  - intros (x & -> & Hin)%list_elem_of_fmap. exists x.
    rewrite <- list_elem_of_In. split; [done|]. apply Z.eqb_refl.
Qed.

Lemma getQuantity_absent pid (items : list Item) :
  pid ∉ id <$> items → getQuantity pid items = zero.
Proof.
  induction items as [|x l IH]; [done|]. intros H.
  rewrite getQuantity_cons. rewrite fmap_cons in H.
  apply not_elem_of_cons in H as [H1 H2].
  case_decide; [congruence|]. by apply IH.
Qed.

Lemma removeFromCart_cons pid x (l : list Item) :
  removeFromCart pid (x :: l)
  = if decide (id x = pid) then removeFromCart pid l
    else x :: removeFromCart pid l.
Proof.
  unfold removeFromCart. rewrite filter_cons.
  repeat case_decide; try done; contradiction.
Qed.

Lemma removeFromCart_other pid other (items : list Item) :
  other ≠ pid →
  getQuantity other (removeFromCart pid items) = getQuantity other items
  ∧ isInCart other (removeFromCart pid items) = isInCart other items.
Proof.
  intros Hne. induction items as [|x l [IH1 IH2]]; [done|].
  rewrite removeFromCart_cons. destruct (decide (id x = pid)) as [Hx|Hx].
  - split.
    + rewrite IH1, getQuantity_cons.
      destruct (decide (id x = other)); congruence.
    + rewrite IH2. unfold isInCart. simpl.
      by rewrite (proj2 (Z.eqb_neq (id x) other)) by congruence.
  - split.
    + by rewrite !getQuantity_cons, IH1.
    + unfold isInCart in *. simpl. by rewrite IH2.
Qed.

(** X2. After [removeFromCart] the id is not in the cart and its quantity
    reads 0; the items of the other ids are kept with their quantities;
    removing again, or removing an id that is not in the cart, changes
    nothing. *)
Theorem removeFromCart_lookup (pid : Z) (items : list Item) :
  isInCart pid (removeFromCart pid items) = false
  ∧ getQuantity pid (removeFromCart pid items) = zero
  ∧ (∀ other, other ≠ pid →
       getQuantity other (removeFromCart pid items) = getQuantity other items
       ∧ isInCart other (removeFromCart pid items) = isInCart other items)
  ∧ removeFromCart pid (removeFromCart pid items) = removeFromCart pid items
  ∧ (isInCart pid items = false → removeFromCart pid items = items).
Proof.
  assert (pid ∉ id <$> removeFromCart pid items) as Hnot.
  { intros (x & Hx & Hin)%list_elem_of_fmap.
    apply list_elem_of_filter in Hin as [Hne _]. congruence. }
  split_and!.
  - apply not_true_is_false. by rewrite isInCart_spec.
  - by apply getQuantity_absent.
  - intros other Hne. by apply removeFromCart_other.
  - clear Hnot. induction items as [|x l IH]; [done|].
    rewrite removeFromCart_cons. destruct (decide (id x = pid)) as [Hx|Hx].
    + done.
    + rewrite removeFromCart_cons. destruct (decide (id x = pid)); [done|].
      by rewrite IH.
  - clear Hnot. intros H. induction items as [|x l IH]; [done|].
    unfold isInCart in H. simpl in H.
    apply orb_false_iff in H as [Hx Hl]. apply Z.eqb_neq in Hx.
    rewrite removeFromCart_cons. destruct (decide (id x = pid)); [done|].
    f_equal. by apply IH.
Qed.

Lemma with_quantity_same (x : Item) : with_quantity (quantity x) x = x.
Proof. by destruct x. Qed.

Lemma getQuantity_map_other (g : Item → Item) pid other (items : list Item) :
  (∀ x, id (g x) = id x) → (∀ x, id x ≠ pid → g x = x) → other ≠ pid →
  getQuantity other (g <$> items) = getQuantity other items.
Proof.
  intros Hid Hg Hne. induction items as [|x l IH]; [done|].
  rewrite fmap_cons, !getQuantity_cons, Hid, IH.
  destruct (decide (id x = other)); [|done].
  rewrite Hg; [done|congruence].
Qed.

(** [Math.max(1, n)] for an integer [n]. *)
Lemma max_one_of_Z n : max one (of_Z n) = of_Z (Z.max 1 n).
Proof.
  unfold max, one, of_Z, leb.
  destruct (decide (1 ≤ n)) as [H|H].
  - rewrite bool_decide_eq_true_2 by exact (proj1 (Z2Qc_inj_le 1 n) H).
    by rewrite Z.max_r.
  - rewrite bool_decide_eq_false_2.
    2:{ intros Hc. apply H. exact (proj2 (Z2Qc_inj_le 1 n) Hc). }
    by rewrite Z.max_l by lia.
Qed.

(** Plus and then minus on an integer quantity from 1 on, below 2^53. *)
Lemma plus_minus_whole x :
  whole x →
  max one (add (max one (add x one)) (of_Z (-1))) = x.
Proof.
  intros (n & -> & Hn). change one with (of_Z 1).
  rewrite (JsNumberProofs.add_of_Z n 1) by lia.
  rewrite max_one_of_Z, Z.max_r by lia.
  rewrite (JsNumberProofs.add_of_Z (n + 1) (-1)) by lia.
  rewrite max_one_of_Z, Z.max_r by lia. f_equal. lia.
Qed.

Lemma minus_at_one : max one (add one (of_Z (-1))) = one.
Proof.
  unfold one. rewrite (JsNumberProofs.add_of_Z 1 (-1)) by (simpl; lia).
  by rewrite max_one_of_Z.
Qed.

(** X3. The quantity buttons of a cart line never add, remove or reorder
    lines and leave the other ids alone; minus on a line of quantity 1
    changes nothing.  On a cart whose quantities are integers from 1 on and
    below 2^53, plus followed by minus restores the cart. *)
Theorem quantity_buttons (item : Item) (items : list Item) :
  id <$> press_minus item items = id <$> items
  ∧ id <$> press_plus item items = id <$> items
  ∧ (∀ other, other ≠ id item →
       getQuantity other (press_minus item items) = getQuantity other items
       ∧ getQuantity other (press_plus item items) = getQuantity other items)
  ∧ (∀ k x, items !! k = Some x → quantity x = one →
       press_minus item items !! k = Some x)
  ∧ (Forall (λ i, whole (quantity i)) items →
     press_minus item (press_plus item items) = items).
Proof.
  unfold press_minus, press_plus, updateQuantity.
  split_and!.
  - apply CartProofs.ids_fmap. intros x. by destruct (id x =? id item).
  - apply CartProofs.ids_fmap. intros x. by destruct (id x =? id item).
  - intros other Hne.
    split; apply (getQuantity_map_other _ (id item)); try done;
      intros x; destruct (Z.eqb_spec (id x) (id item)); done.
  - intros k x Hk Hone. rewrite list_lookup_fmap, Hk.
    cbn [fmap option_fmap option_map].
    destruct (id x =? id item); [|done].
    f_equal. rewrite Hone, minus_at_one, <- Hone.
    apply with_quantity_same.
  - intros Hq. rewrite <- list_fmap_compose.
    rewrite <- (list_fmap_id items) at 2.
    apply list_fmap_ext. intros k x Hk. unfold compose.
    assert (whole (quantity x)) as Hx.
    { rewrite Forall_forall in Hq. apply Hq.
      apply list_elem_of_lookup. eauto. }
    destruct (Z.eqb_spec (id x) (id item)) as [E|E].
    + change (id (with_quantity ?q x)) with (id x).
      rewrite (proj2 (Z.eqb_eq _ _) E).
      change (quantity (with_quantity ?q x)) with q.
      unfold with_quantity at 1.
      change (id (with_quantity ?q x)) with (id x).
      change (name (with_quantity ?q x)) with (name x).
      change (price (with_quantity ?q x)) with (price x).
      change (store (with_quantity ?q x)) with (store x).
      rewrite (plus_minus_whole _ Hx). by destruct x.
    + by rewrite (proj2 (Z.eqb_neq _ _) E).
Qed.

(** X4. For an id that is in the cart, [getQuantity] after [setQuantity]
    reads [Math.max(1, parsed || 1)] for the number [parsed] that
    [parseInt] gave, which is at least 1: it is 1 when [parsed] is NaN or
    0, and [Math.max(1, n)] when [parsed] is the integer [n].  For an id
    that is not in the cart [setQuantity] changes nothing; a second
    [setQuantity] of the same id overrides the first, and the quantities
    of the other ids are as they were. *)
Theorem setQuantity_lookup (pid : Z) (parsed parsed' : number)
    (items : list Item) :
  (isInCart pid items = true →
   getQuantity pid (setQuantity pid parsed items) = validQuantity parsed)
  ∧ at_least_one (validQuantity parsed)
  ∧ validQuantity NaN = one
  ∧ (∀ n, validQuantity (of_Z n) = of_Z (Z.max 1 n))
  ∧ (isInCart pid items = false → setQuantity pid parsed items = items)
  ∧ setQuantity pid parsed' (setQuantity pid parsed items)
    = setQuantity pid parsed' items
  ∧ (∀ other, other ≠ pid →
       getQuantity other (setQuantity pid parsed items)
       = getQuantity other items).
Proof.
  split_and!.
  - intros Hin. unfold setQuantity.
    induction items as [|x l IH]; [done|].
    rewrite fmap_cons, getQuantity_cons.
    destruct (Z.eqb_spec (id x) pid) as [Hx|Hx]; simpl.
    + destruct (decide (id x = pid)); [|done].
      apply or_else_at_least_one, CartProofs.validQuantity_at_least_one.
    + destruct (decide (id x = pid)); [done|]. apply IH.
      unfold isInCart in Hin. simpl in Hin.
      by rewrite (proj2 (Z.eqb_neq _ _) Hx) in Hin.
  - apply CartProofs.validQuantity_at_least_one.
  - reflexivity.
  - intros n. unfold validQuantity, or_else, truthy, of_Z.
    destruct (decide (n = 0)) as [->|Hn].
    + rewrite bool_decide_eq_false_2; [by apply (max_one_of_Z 1)|].
      intros H. apply H. apply Z2Qc_inj_0.
    + rewrite bool_decide_eq_true_2; [apply max_one_of_Z|].
      rewrite <- Z2Qc_inj_0. intros H. by apply Z2Qc_inj in H.
  - intros Hout. unfold setQuantity.
    rewrite <- (list_fmap_id items) at 2. apply list_fmap_ext.
    intros k x Hk. simpl.
    destruct (Z.eqb_spec (id x) pid) as [Hx|Hx]; [|done].
    assert (pid ∈ id <$> items) as Hin.
    { apply list_elem_of_fmap. exists x. split; [done|].
      apply list_elem_of_lookup. eauto. }
    apply isInCart_spec in Hin. congruence.
  - unfold setQuantity. rewrite <- list_fmap_compose.
    apply list_fmap_ext. intros k x _. simpl.
    destruct (Z.eqb_spec (id x) pid) as [Hx|Hx]; simpl.
    + by rewrite (proj2 (Z.eqb_eq _ _) Hx).
    + by rewrite (proj2 (Z.eqb_neq _ _) Hx).
  - intros other Hne. unfold setQuantity.
    apply (getQuantity_map_other _ pid); try done;
      intros x; destruct (Z.eqb_spec (id x) pid); done.
Qed.

(** The count of a cart of integer quantities, from a count [a] on. *)
Lemma itemCount_from a (items : list Item) ns :
  0 ≤ a → whole_quantities items ns → a + total_of ns ≤ 2 ^ 53 →
  foldl (λ acc item, add acc (or_else (quantity item) zero)) (of_Z a) items
  = of_Z (a + total_of ns).
Proof.
  intros Ha [Hq Hn]. revert a Ha items Hq.
  induction Hn as [|n ns Hn1 Hn IH]; intros a Ha items Hq Hsum.
  - apply fmap_nil_inv in Hq as ->. simpl. f_equal. lia.
  - destruct items as [|x l]; [done|]. injection Hq as Hx Hl.
    assert (0 ≤ total_of ns) as Hpos.
    { clear -Hn. induction Hn; simpl; lia. }
    change (total_of (n :: ns)) with (n + total_of ns) in *.
    cbn [foldl]. rewrite Hx.
    rewrite or_else_at_least_one
      by (by apply CartProofs.at_least_one_of_Z).
    rewrite JsNumberProofs.add_of_Z by lia.
    rewrite IH by (done || lia). f_equal. lia.
Qed.

Lemma total_of_nonneg ns : Forall (λ n, 1 ≤ n) ns → 0 ≤ total_of ns.
Proof. induction 1; simpl; lia. Qed.

Lemma total_of_length ns :
  Forall (λ n, 1 ≤ n) ns → Z.of_nat (length ns) ≤ total_of ns.
Proof. induction 1; simpl length; simpl total_of; lia. Qed.

(** [addToCart] keeps the quantities integers and adds one to their
    sum. *)
Lemma addToCart_whole p (items : list Item) ns :
  p_id p ≠ 0 → whole_quantities items ns → total_of ns < 2 ^ 53 →
  ∃ ns', whole_quantities (addToCart (Some p) items) ns'
         ∧ total_of ns' = total_of ns + 1.
Proof.
  intros Hnz [Hq Hn]. revert items Hq.
  induction Hn as [|n ns Hn1 Hn IH]; intros items Hq Hsum.
  - apply fmap_nil_inv in Hq as ->. rewrite addToCart_nil by done.
    exists [1]. split; [|done]. split; [done|]. by apply Forall_singleton.
  - destruct items as [|x l]; [done|]. injection Hq as Hx Hl.
    pose proof (total_of_nonneg _ Hn) as Hpos. simpl in Hsum.
    rewrite addToCart_cons by done.
    destruct (decide (id x = p_id p)).
    + exists (n + 1 :: ns). split; [|simpl; lia]. split.
      * rewrite !fmap_cons. f_equal; [|exact Hl].
        change (quantity (with_quantity ?q x)) with q. rewrite Hx.
        apply JsNumberProofs.add_of_Z. lia.
      * constructor; [lia|done].
    + destruct (IH l Hl ltac:(lia)) as (ns' & [Hq' Hn'] & Hs').
      exists (n :: ns'). split; [|simpl; lia]. split.
      * rewrite !fmap_cons. by f_equal.
      * by constructor.
Qed.

(** X5. On a cart whose quantities are integers from 1 on with a sum below
    2^53, the item count is that sum; it is at least the number of lines of
    the cart, and every [addToCart] of a product with a usable id raises it
    by one.  The badge of the cart icon is hidden exactly when the cart is
    empty, and it reads '99+' from a count of 100 on. *)
Theorem itemCount_badge (items : list Item) (ns : list Z) (p : Product) :
  whole_quantities items ns → total_of ns < 2 ^ 53 →
  itemCount items = of_Z (total_of ns)
  ∧ Z.of_nat (length items) ≤ total_of ns
  ∧ (p_id p ≠ 0 →
     itemCount (addToCart (Some p) items) = of_Z (total_of ns + 1))
  ∧ (cart_badge items = NoBadge ↔ items = [])
  ∧ (cart_badge items = ManyBadge ↔ 99 < total_of ns).
Proof.
  intros Hw Hsum.
  assert (itemCount items = of_Z (total_of ns)) as Hcount.
  { apply (itemCount_from 0 items ns); [lia|done|lia]. }
  destruct Hw as [Hq Hn].
  pose proof (total_of_length _ Hn) as Hlen.
  assert (length items = length ns) as Hl.
  { by rewrite <- (length_fmap quantity), Hq, length_fmap. }
  assert (ltb zero (of_Z (total_of ns)) = bool_decide (0 < total_of ns))
    as Hpos.
  { simpl. apply bool_decide_ext. symmetry. apply Z2Qc_inj_lt. }
  assert (ltb (of_Z 99) (of_Z (total_of ns))
          = bool_decide (99 < total_of ns)) as Hmany.
  { simpl. apply bool_decide_ext. symmetry. apply Z2Qc_inj_lt. }
  split_and!; [done|lia| | |].
  - intros Hnz.
    destruct (addToCart_whole p items ns Hnz (conj Hq Hn) Hsum)
      as (ns' & Hw' & Hs').
    rewrite <- Hs'. apply (itemCount_from 0 _ ns'); [lia|done|lia].
  - unfold cart_badge. rewrite Hcount, Hpos, Hmany.
    destruct (decide (items = [])) as [->|Hne].
    + destruct ns; [|done]. simpl. done.
    + assert (0 < total_of ns).
      { destruct items; [done|]. simpl length in *. lia. }
      rewrite bool_decide_eq_true_2 by done.
      split; [|done]. by destruct (bool_decide (99 < total_of ns)).
  - unfold cart_badge. rewrite Hcount, Hpos, Hmany.
    destruct (decide (99 < total_of ns)) as [H|H].
    + rewrite !bool_decide_eq_true_2 by lia. done.
    + rewrite (bool_decide_eq_false_2 (99 < total_of ns)) by done.
      split; [|done]. by destruct (bool_decide (0 < total_of ns)).
Qed.

Lemma itemCount_badge_witness :
  itemCount Examples.cart_of_two = of_Z 3
  ∧ itemCount (addToCart (Some Scenario.bread) Examples.cart_of_two)
    = of_Z 4.
Proof.
  destruct (itemCount_badge Examples.cart_of_two [2; 1] Scenario.bread)
    as (H1 & _ & H2 & _).
  - split; [reflexivity|]. repeat constructor; lia.
  - simpl. lia.
  - split; [exact H1|]. apply H2. discriminate.
Defined.

(** [addToCart] keeps the quantities at least 1. *)
Lemma addToCart_quantities p (items : list Item) :
  Forall (λ i, at_least_one (quantity i)) items →
  Forall (λ i, at_least_one (quantity i)) (addToCart (Some p) items).
Proof.
  intros Hq. destruct (decide (p_id p = 0)) as [E|Hnz].
  { unfold addToCart. by rewrite E. }
  induction Hq as [|x l Hx Hq IH].
  - rewrite addToCart_nil by done. apply Forall_singleton.
    apply CartProofs.at_least_one_one.
  - rewrite addToCart_cons by done.
    destruct (decide (id x = p_id p)); constructor; try done.
    by apply CartProofs.add_one_at_least_one.
Qed.

Lemma handleAddToCart_product item :
  ∃ p, p_id p = feed_id item
       ∧ ∀ items, handleAddToCart item items = addToCart (Some p) items.
Proof.
  unfold handleAddToCart. destruct (cheapest_option item) as [offer|].
  - by exists (mkProduct (feed_id item) (feed_name item)
                         (offer_price offer) (store_name offer)).
  - by exists (mkProduct (feed_id item) (feed_name item) zero "Unknown").
Qed.

Lemma iter_taps_quantity item n q0 (items : list Item) :
  feed_id item ≠ 0 →
  Forall (λ i, at_least_one (quantity i)) items →
  getQuantity (feed_id item) items = of_Z q0 → 0 ≤ q0 →
  q0 + Z.of_nat n ≤ 2 ^ 53 →
  getQuantity (feed_id item) (Nat.iter n (handleAddToCart item) items)
  = of_Z (q0 + Z.of_nat n)
  ∧ Forall (λ i, at_least_one (quantity i))
           (Nat.iter n (handleAddToCart item) items).
Proof.
  intros Hnz Hq H0 Hq0.
  destruct (handleAddToCart_product item) as (p & Hp & Hadd).
  induction n as [|n IH]; intros Hsum.
  - simpl. split; [|done]. rewrite H0. f_equal. lia.
  - rewrite Nat.iter_succ, Hadd.
    destruct IH as [IH1 IH2]; [lia|]. split.
    + rewrite getQuantity_after_add by (done || congruence).
      rewrite <- Hp. destruct (decide (p_id p = p_id p)); [|done].
      rewrite Hp, IH1. change one with (of_Z 1).
      rewrite JsNumberProofs.add_of_Z by lia. f_equal. lia.
    + by apply addToCart_quantities.
Qed.

(** The line a feed item makes in the cart. *)
Lemma handleAddToCart_new item (items : list Item) :
  feed_id item ≠ 0 → isInCart (feed_id item) items = false →
  handleAddToCart item items
  = items ++ [match cheapest_option item with
              | Some offer => mkItem (feed_id item) (feed_name item)
                                     (offer_price offer) (store_name offer)
                                     one
              | None => mkItem (feed_id item) (feed_name item) zero
                               "Unknown" one
              end].
Proof.
  intros Hnz Hout. unfold handleAddToCart.
  assert (∀ p, p_id p = feed_id item →
            addToCart (Some p) items = items ++ [new_item p]) as H.
  { intros p Hp. induction items as [|x l IH].
    - apply addToCart_nil. congruence.
    - rewrite addToCart_cons by congruence.
      unfold isInCart in Hout. simpl in Hout.
      apply orb_false_iff in Hout as [Hx Hl]. apply Z.eqb_neq in Hx.
      destruct (decide (id x = p_id p)); [congruence|].
      simpl. f_equal. by apply IH. }
  destruct (cheapest_option item) as [offer|]; by rewrite H.
Qed.

Lemma addToCart_snoc p line (items : list Item) :
  p_id p ≠ 0 → p_id p = id line → id line ∉ id <$> items →
  addToCart (Some p) (items ++ [line])
  = items ++ [with_quantity (add (quantity line) one) line].
Proof.
  intros Hp0 Hp Hl. induction items as [|x l IHl].
  - change ([] ++ [line]) with [line].
    rewrite addToCart_cons by done.
    destruct (decide (id line = p_id p)); [done|congruence].
  - rewrite fmap_cons in Hl. apply not_elem_of_cons in Hl as [H1 H2].
    rewrite <- !app_comm_cons. rewrite addToCart_cons by done.
    destruct (decide (id x = p_id p)); [congruence|].
    f_equal. by apply IHl.
Qed.

(** X7. Tapping 'add to cart' on a feed item [n] times, on a cart whose
    quantities are at least 1 and where the item has the integer quantity
    [q] (0 when it is not in the cart), leaves it with the quantity
    [q + n], as long as that is at most 2^53.  At most one line is added:
    on a cart without the item, [n] taps append one line with the quantity
    [n], with the price and the store of the cheapest offer, or the price 0
    and the store 'Unknown' when the item has no offer. *)
Theorem handleAddToCart_taps (item : FeedItem) (n : nat) (q : Z)
    (items : list Item) :
  feed_id item ≠ 0 →
  Z.of_nat n + q ≤ 2 ^ 53 →
  (Forall (λ i, at_least_one (quantity i)) items →
   getQuantity (feed_id item) items = of_Z q → 0 ≤ q →
   getQuantity (feed_id item) (Nat.iter n (handleAddToCart item) items)
   = of_Z (q + Z.of_nat n))
  ∧ (isInCart (feed_id item) items = false → (0 < n)%nat → q = 0 →
     Nat.iter n (handleAddToCart item) items
     = items ++ [match cheapest_option item with
                 | Some offer =>
                     mkItem (feed_id item) (feed_name item)
                            (offer_price offer) (store_name offer)
                            (of_Z (Z.of_nat n))
                 | None =>
                     mkItem (feed_id item) (feed_name item) zero "Unknown"
                            (of_Z (Z.of_nat n))
                 end]).
Proof.
  intros Hnz Hsum. split.
  { intros Hq H0 Hq0.
    by apply (iter_taps_quantity item n q items Hnz Hq H0 Hq0); lia. }
  intros Hout Hn ->. destruct n as [|n]; [lia|]. clear Hn.
  assert (feed_id item ∉ id <$> items) as Hnot.
  { intros Hin. apply isInCart_spec in Hin. congruence. }
  induction n as [|n IH].
  - simpl. rewrite handleAddToCart_new by done.
    by destruct (cheapest_option item).
  - rewrite Nat.iter_succ, IH by lia. unfold handleAddToCart at 1.
    destruct (cheapest_option item) as [offer|];
      rewrite addToCart_snoc by done;
      unfold with_quantity; cbn [id name price store quantity];
      change one with (of_Z 1);
      rewrite (JsNumberProofs.add_of_Z (Z.of_nat (S n)) 1) by lia;
      replace (Z.of_nat (S n) + 1) with (Z.of_nat (S (S n))) by lia;
      reflexivity.
Qed.

Lemma handleAddToCart_taps_witness :
  Nat.iter 3 (handleAddToCart Examples.milk) Examples.cart_of_two
  = Examples.cart_of_two
    ++ [mkItem 7 "Молоко" (literal 35.5) "АТБ" (of_Z 3)].
Proof.
  destruct (handleAddToCart_taps Examples.milk 3 0 Examples.cart_of_two)
    as [_ H].
  - discriminate.
  - simpl. lia.
  - apply H; [reflexivity|lia|reflexivity].
Defined.

End CartViewProofs.

(* ===================================================================== *)
(** * Properties of the store badges                                      *)
(* ===================================================================== *)

Module MapScreenProofs.
Import MapScreen.

Lemma insert_sorted_not_nil x l : insert_sorted x l ≠ [].
Proof. destruct l as [|y l]; simpl; [done|]. by destruct (Qle_bool _ _). Qed.

Lemma sort_nil_inv l : sort l = [] → l = [].
Proof.
  destruct l as [|x l]; [done|]. simpl. intros H.
  by apply insert_sorted_not_nil in H.
Qed.

Lemma head_insert_sorted x l :
  head (insert_sorted x l)
  = match head l with
    | None => Some x
    | Some h => if Qle_bool (by_total_price x h) 0 then Some x else Some h
    end.
Proof. destruct l as [|y l]; simpl; [done|]. by destruct (Qle_bool _ _). Qed.

(** The first store of the sorted list is the first store of the list
    whose total price no store of the list undercuts: the stores before it
    cost strictly more. *)
Lemma head_sort_minimal (l : list Store) best :
  head (sort l) = Some best →
  ∃ k, l !! k = Some best
       ∧ (∀ s, s ∈ l → (total_price best <= total_price s)%Q)
       ∧ (∀ j s, (j < k)%nat → l !! j = Some s →
            (total_price best < total_price s)%Q).
Proof.
  revert best. induction l as [|x l IH]; intros best; simpl; [done|].
  rewrite head_insert_sorted.
  destruct (head (sort l)) as [h|] eqn:Hh.
  - destruct (IH h eq_refl) as (k & Hk & Hmin & Hfirst).
    destruct (Qle_bool (by_total_price x h) 0) eqn:Hle; intros [= <-].
    + apply Qle_bool_iff in Hle. unfold by_total_price in Hle.
      exists 0%nat. split_and!; [done| |lia].
      intros s [->|Hs]%elem_of_cons; [lra|].
      specialize (Hmin s Hs). lra.
    + assert (¬ (by_total_price x h <= 0)%Q) as Hgt.
      { intros Hc. apply Qle_bool_iff in Hc. congruence. }
      unfold by_total_price in Hgt.
      exists (S k). split_and!; [done| |].
      * intros s [->|Hs]%elem_of_cons; [lra|]. by apply Hmin.
      * intros [|j] s Hj Hs; simpl in Hs.
        -- simplify_eq. lra.
        -- apply (Hfirst j); [lia|done].
  - intros [= <-]. apply head_None in Hh. apply sort_nil_inv in Hh as ->.
    exists 0%nat. split_and!; [done| |lia].
    intros s ->%list_elem_of_singleton. lra.
Qed.

Lemma insert_sorted_perm x l : insert_sorted x l ≡ₚ x :: l.
Proof.
  induction l as [|y l IH]; simpl; [done|].
  destruct (Qle_bool _ _); [done|]. rewrite IH. apply Permutation_swap.
Qed.

(** Sorting rearranges the stores and puts them in ascending order of
    total price. *)
Lemma sort_perm l : sort l ≡ₚ l.
Proof.
  induction l as [|x l IH]; simpl; [done|].
  by rewrite insert_sorted_perm, IH.
Qed.

Lemma insert_sorted_sorted x l :
  StronglySorted cheaper_or_equal l →
  StronglySorted cheaper_or_equal (insert_sorted x l).
Proof.
  induction 1 as [|y l Hs IH Hy]; simpl.
  - repeat constructor.
  - destruct (Qle_bool (by_total_price x y) 0) eqn:Hle.
    + apply Qle_bool_iff in Hle. unfold by_total_price in Hle.
      constructor; [by constructor|].
      constructor; [unfold cheaper_or_equal; lra|].
      eapply Forall_impl; [exact Hy|].
      unfold cheaper_or_equal. intros z Hz. lra.
    + assert (¬ (by_total_price x y <= 0)%Q) as Hgt.
      { intros Hc. apply Qle_bool_iff in Hc. congruence. }
      unfold by_total_price in Hgt.
      constructor; [done|].
      rewrite insert_sorted_perm. constructor; [|done].
      unfold cheaper_or_equal. lra.
Qed.

Lemma sort_sorted l : StronglySorted cheaper_or_equal (sort l).
Proof.
  induction l as [|x l IH]; simpl; [constructor|].
  by apply insert_sorted_sorted.
Qed.

Lemma store_badge_store first second s :
  store (badge_store first second s) = s.
Proof.
  unfold badge_store. by repeat case_match.
Qed.

Lemma isBest_badge_store first second s :
  isBest (badge_store first second s) = (id s =? id first).
Proof.
  unfold badge_store. by repeat case_match.
Qed.

Lemma badge_of_best first second s :
  id s = id first →
  badge (badge_store first second s) = Some best_badge
  ∧ badgeColor (badge_store first second s) = success.
Proof.
  intros H. unfold badge_store.
  by rewrite (proj2 (Z.eqb_eq (id s) (id first)) H).
Qed.

Lemma assignStoreBadges_sorted l first rest :
  sort l = first :: rest →
  assignStoreBadges l = badge_store first (head rest) <$> l.
Proof.
  destruct l as [|x l]; intros H; [done|].
  unfold assignStoreBadges. by rewrite H.
Qed.

(** C10. For a non-empty list of stores with pairwise distinct ids,
    [assignStoreBadges] returns the stores in the same order and number;
    the first store of the list sorted by ascending total price, whose
    total price is minimal, is the one and only store marked [isBest], and
    it carries the badge 'Найкраща ціна'; every store with a strictly
    greater total price is not marked.  The empty list yields the empty
    list. *)
Theorem assignStoreBadges_best (storeList : list Store) :
  assignStoreBadges [] = []
  ∧ (storeList ≠ [] → NoDup (id <$> storeList) →
     let out := assignStoreBadges storeList in
     length out = length storeList
     ∧ store <$> out = storeList
     ∧ ∃ best k,
         head (sort storeList) = Some best
         ∧ storeList !! k = Some best
         ∧ (∀ s, s ∈ storeList → (total_price best <= total_price s)%Q)
         ∧ (∀ j s, (j < k)%nat → storeList !! j = Some s →
              (total_price best < total_price s)%Q)
         ∧ (∃ b, out !! k = Some b ∧ store b = best ∧ isBest b = true
                 ∧ badge b = Some "Найкраща ціна"%string)
         ∧ (∀ j b, out !! j = Some b → isBest b = true → j = k)
         ∧ (∀ b, b ∈ out → (total_price best < total_price (store b))%Q →
              isBest b = false)).
Proof.
  split; [done|]. intros Hne Hnd out.
  assert (∃ first rest, sort storeList = first :: rest) as (first & rest & Hs).
  { destruct (sort storeList) as [|f r] eqn:E; [|eauto].
    by apply sort_nil_inv in E. }
  assert (out = badge_store first (head rest) <$> storeList) as Hout
    by (by apply assignStoreBadges_sorted).
  clearbody out. subst out. clear Hne.
  assert (head (sort storeList) = Some first) as Hhead by (by rewrite Hs).
  destruct (head_sort_minimal _ _ Hhead) as (k & Hk & Hmin & Hfirst).
  split_and!.
  - by rewrite length_fmap.
  - rewrite <- list_fmap_compose. rewrite <- (list_fmap_id storeList) at 2.
    apply list_fmap_ext. intros i x _. apply store_badge_store.
  - exists first, k. split_and!; [done..| | |].
    + exists (badge_store first (head rest) first). split_and!.
      * by rewrite list_lookup_fmap, Hk.
      * apply store_badge_store.
      * rewrite isBest_badge_store. by apply Z.eqb_eq.
      * by apply badge_of_best.
    + intros j b Hj Hb.
      apply list_lookup_fmap_Some in Hj as (s & -> & Hj).
      rewrite isBest_badge_store in Hb. apply Z.eqb_eq in Hb.
      by apply (NoDup_key_lookup id storeList j k s first).
    + intros b Hb Hlt.
      apply list_elem_of_fmap in Hb as (s & -> & Hs').
      rewrite store_badge_store in Hlt. rewrite isBest_badge_store.
      apply Z.eqb_neq. intros Heq.
      assert (s = first) as ->.
      { apply (NoDup_key_inj id storeList); [done..| |done].
        apply list_elem_of_lookup. eauto. }
      lra.
Qed.

(** The statement at the mock stores of the basket mode: 'Фора' is the
    cheapest and the only store marked. *)
Lemma assignStoreBadges_best_witness :
  ∃ best k,
    head (sort Scenario.mockStores) = Some best
    ∧ Scenario.mockStores !! k = Some best
    ∧ name best = "Фора"%string
    ∧ ∀ j b, assignStoreBadges Scenario.mockStores !! j = Some b →
             isBest b = true → j = k.
Proof.
  destruct (assignStoreBadges_best Scenario.mockStores) as [_ H].
  destruct H as (_ & _ & best & k & Hh & Hk & _ & _ & _ & Hone & _).
  - discriminate.
  - apply (bool_decide_unpack _). vm_compute. exact I.
  - exists best, k. split_and!; [done..| |done].
    vm_compute in Hh. by injection Hh as <-.
Defined.

End MapScreenProofs.

(* ===================================================================== *)
(** * Properties of the record validator                                  *)
(* ===================================================================== *)

Module RecordValidatorProofs.
Import RecordValidator.






(** A name survives trimming exactly when it has a character that is not
    white space. *)
Lemma trim_nonempty s :
  trim s ≠ ""%string ↔ ∃ c, c ∈ list_ascii_of_string s ∧ is_space c = false.
Proof.
  unfold trim, ltrim.
  set (l := list_ascii_of_string s).
  assert (∀ k, string_of_list_ascii k = ""%string ↔ k = []) as Hs.
  { intros [|c k]; simpl; by split. }
  rewrite Hs. clear Hs. split.
  - intros Hne.
    destruct (reverse (drop_while is_space
                (reverse (drop_while is_space l)))) as [|c k] eqn:E; [done|].
    clear Hne.
    assert (c ∈ drop_while is_space l) as Hc.
    { apply elem_of_reverse.
      eapply elem_of_suffix; [|apply (drop_while_suffix is_space)].
      apply elem_of_reverse. rewrite E. left. }
    destruct (drop_while is_space l) as [|d k'] eqn:E'; [by inversion Hc|].
    exists d. split.
    + eapply elem_of_suffix; [|apply (drop_while_suffix is_space l)].
      rewrite E'. left.
    + by eapply drop_while_head.
  - intros (c & Hc & Hsp) H.
    apply (f_equal reverse) in H. rewrite reverse_involutive in H.
    simpl in H. apply drop_while_nil_iff in H.
    assert (Forall (λ x, is_space x = true) (drop_while is_space l)) as H'.
    { apply Forall_forall. intros x Hx. rewrite Forall_forall in H.
      apply H. by apply elem_of_reverse. }
    assert (drop_while is_space l = []) as Hnil.
    { destruct (drop_while is_space l) as [|d k] eqn:E; [done|].
      apply drop_while_head in E. inversion H'; congruence. }
    apply drop_while_nil_iff in Hnil. rewrite Forall_forall in Hnil.
    specialize (Hnil c Hc). congruence.
Qed.



End RecordValidatorProofs.

(* ===================================================================== *)
(** * Properties of the page extractor                                    *)
(* ===================================================================== *)

Module PageExtractorProofs.
Import PageExtractor.

Lemma separator_not_digit c : is_separator c = true → is_digit c = false.
Proof.
  unfold is_separator. intros [H|H]%orb_true_iff; apply Ascii.eqb_eq in H;
    by subst.
Qed.

Lemma digits_value_app ds1 ds2 :
  digits_value (ds1 ++ ds2)
  = digits_value ds1 * 10 ^ Z.of_nat (length ds2) + digits_value ds2.
Proof.
  unfold digits_value. rewrite foldl_app.
  generalize (foldl (λ acc c, 10 * acc + digit_value c) 0 ds1).
  induction ds2 as [|d ds IH] using rev_ind; intros a.
  - simpl. lia.
  - rewrite !foldl_snoc, IH, (IH 0), length_app, Nat2Z.inj_add. simpl.
    rewrite Z.pow_add_r by lia. lia.
Qed.

(** What is left of a decorated number once the text before its first
    digit and after its last digit is dropped. *)
Lemma number_core_decorated pre body post first last middle :
  Forall (λ c, not_digit c = true) pre →
  Forall (λ c, not_digit c = true) post →
  body = first :: middle ++ [last] ∨ (body = [first] ∧ last = first) →
  is_digit first = true → is_digit last = true →
  number_core (pre ++ body ++ post) = body.
Proof.
  intros Hpre Hpost Hbody Hf Hl. unfold number_core.
  rewrite drop_while_app_all by done.
  assert (not_digit first = false) as Hnf by (unfold not_digit; by rewrite Hf).
  assert (not_digit last = false) as Hnl by (unfold not_digit; by rewrite Hl).
  assert (drop_while not_digit (body ++ post) = body ++ post) as ->.
  { destruct Hbody as [->|[-> _]]; simpl; by rewrite Hnf. }
  rewrite reverse_app, drop_while_app_all.
  2:{ apply Forall_forall. intros x Hx. rewrite elem_of_reverse in Hx.
      rewrite Forall_forall in Hpost. by apply Hpost. }
  assert (drop_while not_digit (reverse body) = reverse body) as ->.
  { destruct Hbody as [->|[-> ->]].
    - rewrite reverse_cons, reverse_app. simpl. by rewrite Hnl.
    - simpl. by rewrite Hnf. }
  apply reverse_involutive.
Qed.

Lemma nonempty_ends {A} (l : list A) :
  l ≠ [] →
  ∃ first last, (∃ middle, l = first :: middle ++ [last])
                ∨ (l = [first] ∧ last = first).
Proof.
  destruct l as [|x l]; [done|]. intros _.
  destruct l as [|y l] using rev_ind.
  - exists x, x. by right.
  - exists x, y. left. by exists l.
Qed.

(** A number with a decimal separator parses to the value of its digits,
    scaled by the number of decimals. *)
Lemma parse_number_decimal ip sep fp :
  ip ≠ [] → fp ≠ [] →
  Forall (λ c, is_digit c = true) ip →
  Forall (λ c, is_digit c = true) fp →
  is_separator sep = true →
  parse_number (ip ++ sep :: fp)
  = Some (digits_value (ip ++ fp) # Pos.pow 10 (Pos.of_nat (length fp))).
Proof.
  intros Hip Hfp Hi Hf Hsep. unfold parse_number.
  pose proof (separator_not_digit sep Hsep) as Hnd.
  rewrite take_while_app_stop by done.
  rewrite drop_while_app_all by done. rewrite drop_while_stop by done.
  destruct ip as [|i ip]; [done|].
  rewrite Hsep. simpl.
  assert (forallb is_digit fp = true) as ->.
  { apply forallb_forall. intros x Hx%list_elem_of_In.
    rewrite Forall_forall in Hf. by apply Hf. }
  destruct fp as [|f fp]; [done|]. done.
Qed.

Lemma parse_number_integer ip :
  ip ≠ [] → Forall (λ c, is_digit c = true) ip →
  parse_number ip = Some (inject_Z (digits_value ip)).
Proof.
  intros Hip Hi. unfold parse_number.
  rewrite take_while_all by done.
  assert (drop_while is_digit ip = []) as -> by (by apply drop_while_nil_iff).
  by destruct ip.
Qed.

Lemma extract_page_app ctx p1 p2 :
  extract_page ctx (p1 ++ p2) = extract_page ctx p1 ++ extract_page ctx p2.
Proof. unfold extract_page. apply omap_app. Qed.

Lemma decimal_value ip fp :
  fp ≠ [] →
  (digits_value (ip ++ fp) # Pos.pow 10 (Pos.of_nat (length fp))
   == inject_Z (digits_value ip)
      + (digits_value fp # Pos.pow 10 (Pos.of_nat (length fp))))%Q.
Proof.
  intros Hfp. rewrite digits_value_app.
  assert (Z.pos (Pos.pow 10 (Pos.of_nat (length fp)))
          = 10 ^ Z.of_nat (length fp)) as Hpow.
  { rewrite Pos2Z.inj_pow. f_equal.
    destruct fp as [|c fp]; [done|]. simpl length.
    rewrite <- Pos.of_nat_succ, Zpos_P_of_succ_nat. lia. }
  unfold Qeq, Qplus, inject_Z. simpl Qnum. simpl Qden.
  rewrite Pos.mul_1_l, !Hpow. ring.
Qed.

(** C5. The price parsing tolerates a decimal comma or dot and currency
    text around the number and returns the normalized value: "45,99" is
    45.99, and in general the integer digits plus the decimals scaled by
    their number.  A listing whose price cannot be parsed yields no record:
    it is left out of the output of its page, the records of the other
    listings are unchanged, and nothing is raised ([extract_page] is a
    total function). *)
Theorem parse_price_locale :
  parse_price "45,99" = Some 45.99%Q
  ∧ (∀ pre ip sep fp post,
       Forall (λ c, not_digit c = true) pre →
       Forall (λ c, not_digit c = true) post →
       ip ≠ [] → fp ≠ [] →
       Forall (λ c, is_digit c = true) ip →
       Forall (λ c, is_digit c = true) fp →
       is_separator sep = true →
       ∃ q, parse_price (string_of_list_ascii
                           (pre ++ (ip ++ sep :: fp) ++ post)) = Some q
            ∧ (q == inject_Z (digits_value ip)
                    + (digits_value fp
                       # Pos.pow 10 (Pos.of_nat (length fp))))%Q)
  ∧ (∀ pre ip post,
       Forall (λ c, not_digit c = true) pre →
       Forall (λ c, not_digit c = true) post →
       ip ≠ [] →
       Forall (λ c, is_digit c = true) ip →
       parse_price (string_of_list_ascii (pre ++ ip ++ post))
       = Some (inject_Z (digits_value ip)))
  ∧ (∀ ctx l, parse_price (listing_price l) = None →
       extract_listing ctx l = None)
  ∧ (∀ ctx l q, parse_price (listing_price l) = Some q →
       ∃ r, extract_listing ctx l = Some r ∧ RawRecord.price r = q
            ∧ RawRecord.name r = listing_name l
            ∧ RawRecord.in_stock r = listing_in_stock l)
  ∧ (∀ ctx before bad after,
       parse_price (listing_price bad) = None →
       extract_page ctx (before ++ bad :: after)
       = extract_page ctx before ++ extract_page ctx after)
  ∧ (∀ ctx page r,
       r ∈ extract_page ctx page
       ↔ ∃ l, l ∈ page ∧ extract_listing ctx l = Some r).
Proof.
  split_and!.
  - reflexivity.
  - intros pre ip sep fp post Hpre Hpost Hip Hfp Hi Hf Hsep.
    eexists. split; [|by apply decimal_value].
    unfold parse_price. rewrite list_ascii_of_string_of_list_ascii.
    destruct (nonempty_ends ip Hip) as (first & x & Hfirst).
    destruct (nonempty_ends fp Hfp) as (y & last & Hlast).
    assert (is_digit first = true) as Hdf.
    { rewrite Forall_forall in Hi. apply Hi.
      destruct Hfirst as [[m ->]|[-> _]]; left. }
    assert (is_digit last = true) as Hdl.
    { rewrite Forall_forall in Hf. apply Hf.
      destruct Hlast as [[m ->]|[-> ->]]; [|left].
      apply elem_of_cons. right. apply elem_of_app. right. left. }
    assert (∃ middle, ip ++ sep :: fp = first :: middle ++ [last])
      as [middle Hbody].
    { destruct Hfirst as [[m ->]|[-> _]], Hlast as [[m' ->]|[-> ->]].
      - exists (m ++ [x] ++ sep :: y :: m'). simpl.
        by rewrite <- !app_assoc.
      - exists (m ++ [x] ++ [sep]). simpl. by rewrite <- !app_assoc.
      - by exists (sep :: y :: m').
      - by exists [sep]. }
    rewrite (number_core_decorated pre _ post first last middle);
      [|done|done|by left|done|done].
    by apply parse_number_decimal.
  - intros pre ip post Hpre Hpost Hip Hi.
    unfold parse_price. rewrite list_ascii_of_string_of_list_ascii.
    destruct (nonempty_ends ip Hip) as (first & last & Hends).
    assert (is_digit first = true ∧ is_digit last = true) as [Hdf Hdl].
    { rewrite Forall_forall in Hi.
      destruct Hends as [[m ->]|[-> ->]]; split; apply Hi; try left.
      apply elem_of_cons. right. apply elem_of_app. right. left. }
    destruct Hends as [[m Hm]|Hone].
    + rewrite (number_core_decorated pre ip post first last m);
        [|done|done|by left|done|done].
      by apply parse_number_integer.
    + rewrite (number_core_decorated pre ip post first last []);
        [|done|done|by right|done|done].
      by apply parse_number_integer.
  - intros ctx l H. unfold extract_listing. by rewrite H.
  - intros ctx l q H. unfold extract_listing. rewrite H. simpl. eauto.
  - intros ctx before bad after H.
    rewrite extract_page_app. f_equal. unfold extract_page. simpl.
    unfold extract_listing at 1. by rewrite H.
  - intros ctx page r. unfold extract_page. apply list_elem_of_omap.
Qed.

(** The statement on decorated prices, at the price "₴45,99 грн". *)
Lemma parse_price_locale_witness :
  ∃ q, parse_price "₴45,99 грн" = Some q ∧ (q == 45.99)%Q.
Proof.
  destruct parse_price_locale as (_ & H & _ & _).
  destruct (H (list_ascii_of_string "₴") (list_ascii_of_string "45")
              ","%char (list_ascii_of_string "99")
              (list_ascii_of_string " грн")) as (q & Hq & Hv).
  - vm_compute. repeat constructor.
  - vm_compute. repeat constructor.
  - done.
  - done.
  - vm_compute. repeat constructor.
  - vm_compute. repeat constructor.
  - reflexivity.
  - exists q. split; [exact Hq|]. rewrite Hv. reflexivity.
Defined.

End PageExtractorProofs.

(* ===================================================================== *)
(** * Properties of the store-context injection                           *)
(* ===================================================================== *)

Module StoreContextInjectorProofs.
Import StoreContextInjector.

Ltac run_driver :=
  unfold ATB.set_store_context, Silpo.set_store_context,
    Silpo.execute_script, mbind, driver_bind, bind, ret, raise, add_cookie,
    localStorage_setItem, refresh, ATB.site_reads, Silpo.site_reads;
  simpl.






Lemma Silpo_unknown_id ctx s :
  Silpo.store_id_map !! StoreContext.external_store_id ctx = None →
  Silpo.set_store_context ctx s
  = (inl (KeyError (StoreContext.external_store_id ctx)), s).
Proof. run_driver. by intros ->. Qed.




End StoreContextInjectorProofs.

(* ===================================================================== *)
(** * Properties of the scheduled run                                     *)
(* ===================================================================== *)

Module ScrapeOrchestratorProofs.
Import StoreContextInjector ScrapeOrchestrator.

Section Task.
Variable get_scraper : string → Error + Scraper.

(** While the scrapes go through, the loop goes on. *)
Lemma run_stores_app before rest :
  Forall (scrapes get_scraper) before →
  run_stores get_scraper (before ++ rest)
  = mkRun (before ++ scraped (run_stores get_scraper rest))
          (raised (run_stores get_scraper rest)).
Proof.
  induction 1 as [|store before (scraper & items & Hg & Hs) _ IH]; simpl.
  - by destruct (run_stores get_scraper rest).
  - by rewrite Hg, Hs, IH.
Qed.

Lemma run_stores_all stores :
  Forall (scrapes get_scraper) stores →
  run_stores get_scraper stores = mkRun stores None.
Proof.
  intros H. rewrite <- (app_nil_r stores) at 1.
  rewrite (run_stores_app _ _ H). simpl. by rewrite app_nil_r.
Qed.

(** The lookup of the scraper raises: the store and the stores after it
    are not scraped. *)
Lemma run_stores_lookup_raises before store after e :
  Forall (scrapes get_scraper) before →
  get_scraper (Store.chain_name store) = inl e →
  run_stores get_scraper (before ++ store :: after) = mkRun before (Some e).
Proof.
  intros H Hg. rewrite (run_stores_app _ _ H). simpl. rewrite Hg. simpl.
  by rewrite app_nil_r.
Qed.

(** The scrape of the store raises: the stores after it are not
    scraped. *)
Lemma run_stores_scrape_raises before store after scraper e :
  Forall (scrapes get_scraper) before →
  get_scraper (Store.chain_name store) = inr scraper →
  scrape_category scraper (StoreContext.of_store store) = inl e →
  run_stores get_scraper (before ++ store :: after)
  = mkRun (before ++ [store]) (Some e).
Proof.
  intros H Hg Hs. rewrite (run_stores_app _ _ H). simpl.
  by rewrite Hg, Hs.
Qed.

(** The stores that were scraped are the first of the list, and the run
    returns exactly when every store was scraped. *)
Lemma run_stores_prefix stores :
  scraped (run_stores get_scraper stores) `prefix_of` stores
  ∧ (raised (run_stores get_scraper stores) = None
     ↔ Forall (scrapes get_scraper) stores).
Proof.
  induction stores as [|store rest [IH1 IH2]]; simpl.
  - split; [done|]. split; [constructor|done].
  - destruct (get_scraper (Store.chain_name store)) as [e|scraper] eqn:Hg.
    { simpl. split; [apply prefix_nil|]. split; [done|].
      intros H. apply Forall_cons in H as [(sc & items & H & _) _].
      congruence. }
    destruct (scrape_category scraper (StoreContext.of_store store))
      as [e|items] eqn:Hs; simpl.
    { split; [by apply prefix_cons, prefix_nil|]. split; [done|].
      intros H. apply Forall_cons in H as [(sc & its & H1 & H2) _].
      congruence. }
    split; [by apply prefix_cons|].
    rewrite IH2, Forall_cons. split; [|by intros [_ ?]].
    intros H. split; [|done]. by exists scraper, items.
Qed.

End Task.

(** The run of the scenario over the three stores ends at the Silpo store,
    the second one. *)
Lemma scenario_three_stores :
  scrape_all_stores Scenario.get_scraper Scenario.three_stores
  = mkRun [Scenario.atb_store; Scenario.silpo_store]
          (Some (KeyError "silpo-lviv-king-cross")).
Proof. reflexivity. Qed.

(** C8 as stated fails on the task: the scrape of the Silpo store of the
    scenario raises, the run ends with that exception, and the active
    store after it is never scraped. *)
Lemma store_failure_aborts_run :
  let r := scrape_all_stores Scenario.get_scraper Scenario.three_stores in
  Scenario.unknown_store ∈ active_stores Scenario.three_stores
  ∧ raised r = Some (KeyError "silpo-lviv-king-cross")
  ∧ Scenario.unknown_store ∉ scraped r.
Proof.
  intros r. subst r. rewrite scenario_three_stores. simpl.
  split_and!; [|done|].
  - apply list_elem_of_filter. split; [done|].
    do 2 apply list_elem_of_further. apply list_elem_of_here.
  - rewrite !elem_of_cons, elem_of_nil. intros [H|[H|[]]]; discriminate H.
Qed.

(** C8. A run scrapes the active stores in order and returns when every
    scrape went through.  The first exception of a store's scrape is not
    caught: it ends the run, the stores before that store and the store
    itself have been scraped, the stores after it are not.  In every run
    the stores scraped are the first of the active stores, and the run
    returns (nothing) exactly when the scrape of every active store went
    through. *)
Theorem first_failure_ends_run
    (get_scraper : string → Error + Scraper) (db : Db.t) :
  let r := scrape_all_stores get_scraper db in
  (Forall (scrapes get_scraper) (active_stores db) →
   r = mkRun (active_stores db) None)
  ∧ (∀ before store after scraper e,
       active_stores db = before ++ store :: after →
       Forall (scrapes get_scraper) before →
       get_scraper (Store.chain_name store) = inr scraper →
       scrape_category scraper (StoreContext.of_store store) = inl e →
       r = mkRun (before ++ [store]) (Some e))
  ∧ scraped r `prefix_of` active_stores db
  ∧ (raised r = None ↔ Forall (scrapes get_scraper) (active_stores db)).
Proof.
  intros r. subst r. unfold scrape_all_stores. split_and!.
  - apply run_stores_all.
  - intros before store after scraper e -> Hb Hg Hs.
    by apply (run_stores_scrape_raises _ _ _ _ scraper).
  - apply run_stores_prefix.
  - apply run_stores_prefix.
Qed.

(** C7 as stated fails on the task: with the store of the chain without
    scraper first, the run raises at once and the ATB store, which is
    active, is never scraped. *)
Lemma unsupported_chain_aborts_run :
  let r := scrape_all_stores Scenario.get_scraper Scenario.unknown_first in
  Scenario.get_scraper (Store.chain_name Scenario.unknown_store)
  = inl (KeyError "Unknown")
  ∧ Scenario.atb_store ∈ active_stores Scenario.unknown_first
  ∧ r = mkRun [] (Some (KeyError "Unknown")).
Proof.
  intros r. split_and!; [reflexivity| |reflexivity].
  apply list_elem_of_filter. split; [done|].
  apply list_elem_of_further, list_elem_of_here.
Qed.

(** C7. An active store whose chain has no scraper is not skipped: when
    the scrapes of the active stores before it went through, the run ends
    at that store with the exception of the scraper lookup; that store and
    the active stores after it are not scraped, and nothing lists the
    store as unsupported. *)
Theorem unsupported_chain_ends_run
    (get_scraper : string → Error + Scraper) (db : Db.t)
    (before after : list Store.t) (store : Store.t) (e : Error) :
  active_stores db = before ++ store :: after →
  Forall (scrapes get_scraper) before →
  get_scraper (Store.chain_name store) = inl e →
  scrape_all_stores get_scraper db = mkRun before (Some e).
Proof.
  intros Ha Hb Hg. unfold scrape_all_stores. rewrite Ha.
  by apply run_stores_lookup_raises.
Qed.

Lemma unsupported_chain_ends_run_witness :
  scrape_all_stores Scenario.get_scraper
    (Db.mk [Scenario.atb_store; Scenario.unknown_store;
            Scenario.silpo_store] [] [] 4 1 0)
  = mkRun [Scenario.atb_store] (Some (KeyError "Unknown")).
Proof.
  apply (unsupported_chain_ends_run Scenario.get_scraper _
           [Scenario.atb_store] [Scenario.silpo_store]
           Scenario.unknown_store).
  - reflexivity.
  - apply Forall_singleton. eexists _, _. split; reflexivity.
  - reflexivity.
Defined.


End ScrapeOrchestratorProofs.

(* ===================================================================== *)
(** * Properties of the reconciler                                        *)
(* ===================================================================== *)

Module PriceReconcilerProofs.
Import PriceReconciler.

Lemma most_recent_in_snoc product store rows r :
  Db.most_recent_in product store (rows ++ [r])
  = if (Price.product r =? product) && (Price.store r =? store)
    then Db.newer r (Db.most_recent_in product store rows)
    else Db.most_recent_in product store rows.
Proof. unfold Db.most_recent_in. by rewrite foldl_snoc. Qed.

Lemma most_recent_in_app_other product store rows added :
  Forall (λ r, Price.product r ≠ product) added →
  Db.most_recent_in product store (rows ++ added)
  = Db.most_recent_in product store rows.
Proof.
  induction added as [|r added IH] using rev_ind; intros H.
  - by rewrite app_nil_r.
  - apply Forall_app in H as [H Hr]. rewrite Forall_singleton in Hr.
    rewrite app_assoc, most_recent_in_snoc, IH by done.
    by rewrite (proj2 (Z.eqb_neq _ _) Hr).
Qed.

Lemma extends_without_refl pid db : Db.extends_without pid db db.
Proof. exists []. rewrite app_nil_r. split_and!; [done|constructor|lia]. Qed.

Lemma extends_without_trans pid db0 db1 db2 :
  Db.extends_without pid db0 db1 → Db.extends_without pid db1 db2 →
  Db.extends_without pid db0 db2.
Proof.
  intros (a1 & E1 & H1 & C1) (a2 & E2 & H2 & C2). exists (a1 ++ a2).
  split_and!; [|by apply Forall_app|lia].
  by rewrite E2, E1, app_assoc.
Qed.

Lemma extends_without_most_recent pid store db0 db :
  Db.extends_without pid db0 db →
  Db.most_recent pid store db = Db.most_recent pid store db0.
Proof.
  intros (added & E & H & _). unfold Db.most_recent. rewrite E.
  by apply most_recent_in_app_other.
Qed.

(** Writing a price row of another product. *)
Lemma create_price_other pid product store v flag db :
  product ≠ pid →
  Db.extends_without pid db (Db.create_price product store v flag db).
Proof.
  intros H. eexists [_]. simpl. split_and!; [done| |lia].
  by apply Forall_singleton.
Qed.

Lemma get_singleton {A} (l : list A) x : Db.get l = inr x → l = [x].
Proof. destruct l as [|y [|z l]]; simpl; congruence. Qed.

(** [get_or_create] writes nothing but a new product, and returns a
    product of the table with the name asked for. *)
Lemma get_or_create_product_spec name db r db' :
  Db.get_or_create_product name db = (r, db') →
  Db.prices db' = Db.prices db ∧ Db.clock db' = Db.clock db
  ∧ Db.stores db' = Db.stores db
  ∧ ((db' = db ∧ ∀ q, r = inr q → q ∈ Db.products db ∧ Product.name q = name)
     ∨ (∃ q, r = inr q ∧ Product.name q = name
             ∧ Db.products db' = Db.products db ++ [q]
             ∧ Product.id q = Db.next_product_id db
             ∧ Db.next_product_id db' = Db.next_product_id db + 1)).
Proof.
  unfold Db.get_or_create_product.
  destruct (Db.get (filter _ (Db.products db))) as [e|q] eqn:E.
  - destruct e; intros [= <- <-]; simpl; split_and!; try done;
      try (left; split; [done|]; by intros q [=]).
    right. eexists. by split_and!.
  - intros [= <- <-]. split_and!; [done..|]. left. split; [done|].
    intros q' [= <-]. apply get_singleton in E.
    assert (q ∈ filter (λ p, Product.name p = name) (Db.products db)) as Hq
      by (rewrite E; left).
    apply list_elem_of_filter in Hq as [Hn Hq]. by split.
Qed.

Lemma get_or_create_product_wf name db r db' :
  Db.get_or_create_product name db = (r, db') → Db.wf db → Db.wf db'.
Proof.
  intros H (Hn & Hb & Ht).
  destruct (get_or_create_product_spec _ _ _ _ H)
    as (Hp & Hc & _ & [[-> _]|(q & _ & _ & Hq & Hid & Hnext)]); [done|].
  unfold Db.wf. rewrite Hq, Hp, Hc, Hnext. split_and!; [| |done].
  - rewrite fmap_app. apply NoDup_app. split_and!; [done| |apply NoDup_singleton].
    intros x (y & -> & Hy)%list_elem_of_fmap Hx.
    simpl in Hx. apply list_elem_of_singleton in Hx.
    rewrite Forall_forall in Hb. specialize (Hb y Hy). lia.
  - apply Forall_app. split.
    + eapply Forall_impl; [exact Hb|]. simpl. intros. lia.
    + apply Forall_singleton. lia.
Qed.

Lemma create_price_wf product store v flag db :
  Db.wf db → Db.wf (Db.create_price product store v flag db).
Proof.
  intros (Hn & Hb & Ht). unfold Db.wf. simpl. split_and!; [done..|].
  apply Forall_app. split.
  - eapply Forall_impl; [exact Ht|]. simpl. intros. lia.
  - apply Forall_singleton. simpl. lia.
Qed.

(** The outcome of saving one item: nothing but a product was written, or
    one price row of a product that carries the name of the item was
    appended. *)
Lemma save_record_spec db item e db' :
  save_record db item = (e, db') →
  Db.stores db' = Db.stores db
  ∧ (Db.wf db → Db.wf db')
  ∧ (∀ p, p ∈ Db.products db → p ∈ Db.products db')
  ∧ ((Db.prices db' = Db.prices db ∧ Db.clock db' = Db.clock db)
     ∨ (∃ q sid v flag,
          e = None
          ∧ ScrapedItem.price item = Some v
          ∧ ScrapedItem.in_stock item = Some flag
          ∧ Db.prices db'
            = Db.prices db ++ [Price.mk (Product.id q) sid v flag
                                        (Db.clock db)]
          ∧ Db.clock db' = Db.clock db + 1
          ∧ ScrapedItem.name item = Some (Product.name q)
          ∧ ((q ∈ Db.products db)
             ∨ Product.id q = Db.next_product_id db))).
Proof.
  unfold save_record.
  destruct (ScrapedItem.name item) as [name|].
  2:{ intros [= <- <-]. split_and!; [done..|]. by left. }
  destruct (Db.get_or_create_product name db) as [r db1] eqn:E.
  pose proof (get_or_create_product_wf _ _ _ _ E) as Hwf.
  destruct (get_or_create_product_spec _ _ _ _ E)
    as (Hp & Hc & Hs & Hcase).
  assert (∀ p, p ∈ Db.products db → p ∈ Db.products db1) as Hkeep.
  { destruct Hcase as [[-> _]|(q & _ & _ & -> & _)]; [done|].
    intros p Hp'. apply elem_of_app. by left. }
  destruct r as [err|q].
  { intros [= <- <-]. split_and!; [done..|]. by left. }
  destruct (ScrapedItem.external_store_id item) as [ext|].
  2:{ intros [= <- <-]. split_and!; [done..|]. by left. }
  destruct (Db.get_store ext db1) as [err|store].
  { intros [= <- <-]. split_and!; [done..|]. by left. }
  destruct (ScrapedItem.price item) as [v|].
  2:{ intros [= <- <-]. split_and!; [done..|]. by left. }
  destruct (ScrapedItem.in_stock item) as [flag|].
  2:{ intros [= <- <-]. split_and!; [done..|]. by left. }
  intros [= <- <-]. simpl. split_and!; [done| |done|].
  - intros H. by apply create_price_wf, Hwf.
  - right. exists q, (Store.id store), v, flag. rewrite Hp, Hc.
    split_and!; [done..| |].
    + destruct Hcase as [[_ H]|(q' & [= <-] & Hn & _)]; [|by rewrite Hn].
      destruct (H q eq_refl) as [_ Hn]. by rewrite Hn.
    + destruct Hcase as [[_ H]|(q' & [= <-] & _ & _ & Hid & _)].
      * left. by destruct (H q eq_refl).
      * by right.
Qed.

(** Saving an item of another name writes no row of the product [p]. *)
Lemma save_record_other db item e db' p :
  save_record db item = (e, db') →
  Db.wf db → p ∈ Db.products db →
  ScrapedItem.name item ≠ Some (Product.name p) →
  Db.extends_without (Product.id p) db db'.
Proof.
  intros E (Hn & Hb & Ht) Hp Hname.
  destruct (save_record_spec _ _ _ _ E) as (_ & _ & _ & Hcase).
  destruct Hcase
    as [[Hpr Hc]|(q & sid & v & flag & _ & _ & _ & Hpr & Hc & Hq & Hcase)].
  - exists []. rewrite app_nil_r. split_and!; [done|constructor|lia].
  - eexists [_]. split_and!; [done| |lia].
    apply Forall_singleton. simpl. intros Heq.
    destruct Hcase as [Hin|Hfresh].
    + apply Hname. rewrite Hq. do 2 f_equal.
      by apply (NoDup_key_inj Product.id (Db.products db)).
    + rewrite Forall_forall in Hb. specialize (Hb p Hp). lia.
Qed.

Lemma save_step_db db n item :
  ∃ n1, save_step (db, n) item
        = ((save_record db (ScrapedItem.of_record item)).2, n1).
Proof.
  unfold save_step. simpl.
  destruct (save_record db (ScrapedItem.of_record item)) as [[e|] db1];
    eauto.
Qed.

Lemma save_all_spec records db n :
  let r := foldl save_step (db, n) records in
  Db.stores r.1 = Db.stores db
  ∧ (Db.wf db → Db.wf r.1)
  ∧ (∀ p, p ∈ Db.products db → p ∈ Db.products r.1)
  ∧ ∀ p, Db.wf db → p ∈ Db.products db →
         Forall (λ item, RawRecord.name item ≠ Product.name p) records →
         Db.extends_without (Product.id p) db r.1.
Proof.
  revert db n. induction records as [|item records IH]; intros db n;
    cbn [foldl].
  { simpl. split_and!; [done..|]. intros. apply extends_without_refl. }
  destruct (save_step_db db n item) as [n1 ->].
  destruct (save_record db (ScrapedItem.of_record item)) as [e db1] eqn:E.
  simpl.
  destruct (save_record_spec _ _ _ _ E) as (Hs & Hwf & Hkeep & _).
  destruct (IH db1 n1) as (Hs1 & Hwf1 & Hkeep1 & Hother1).
  split_and!.
  - by rewrite Hs1.
  - intros H. by apply Hwf1, Hwf.
  - intros p Hp. by apply Hkeep1, Hkeep.
  - intros p Hdb Hp Hnames. apply Forall_cons in Hnames as [Hitem Hnames].
    eapply extends_without_trans.
    + eapply save_record_other; [exact E|done..|].
      simpl. congruence.
    + apply Hother1; [by apply Hwf|by apply Hkeep|done].
Qed.

(** The save loop leaves the stores alone and keeps the database well
    formed, however it ends. *)
Lemma save_loop_spec products db :
  Db.stores (save_loop products db).2 = Db.stores db
  ∧ (Db.wf db → Db.wf (save_loop products db).2).
Proof.
  revert db. induction products as [|item rest IH]; intros db; simpl;
    [done|].
  destruct (save_record db item) as [[e|] db1] eqn:E;
    destruct (save_record_spec _ _ _ _ E) as (Hs & Hwf & _); simpl;
    [done|].
  destruct (IH db1) as [Hs1 Hwf1]. split; [by rewrite Hs1|auto].
Qed.

Lemma save_all_wf records db : Db.wf db → Db.wf (save_all records db).1.
Proof. intros H. by apply (save_all_spec records db 0%nat). Qed.

Lemma mark_all_wf store l db :
  Db.wf db → Db.wf (foldl (mark_unavailable store) db l).
Proof.
  revert db. induction l as [|x l IH]; intros db Hwf; simpl; [done|].
  apply IH. by apply create_price_wf.
Qed.

Lemma mark_all_other store l db pid :
  Forall (λ x, Product.id x.1 ≠ pid) l →
  Db.extends_without pid db (foldl (mark_unavailable store) db l).
Proof.
  intros H. revert db. induction H as [|x l Hx _ IH]; intros db; simpl.
  - apply extends_without_refl.
  - eapply extends_without_trans; [|apply IH].
    by apply create_price_other.
Qed.

Lemma mark_all_prices store l db :
  ∃ added,
    Db.prices (foldl (mark_unavailable store) db l) = Db.prices db ++ added
    ∧ Db.products (foldl (mark_unavailable store) db l) = Db.products db.
Proof.
  revert db. induction l as [|x l IH]; intros db; simpl.
  - exists []. by rewrite app_nil_r.
  - destruct (IH (mark_unavailable store db x)) as (added & E & Hp).
    simpl in E. eexists. rewrite E, <- app_assoc. by split.
Qed.

Lemma present_false records p :
  present records p = false
  ↔ Forall (λ item, RawRecord.name item ≠ Product.name p) records.
Proof.
  unfold present. induction records as [|x l IH]; simpl.
  - split; [constructor|done].
  - rewrite orb_false_iff, IH, String.eqb_neq, Forall_cons. done.
Qed.

(** Where a product absent from the run sits in the list of stale
    products. *)
Lemma stale_products_split records store db p r :
  NoDup (Product.id <$> Db.products db) →
  p ∈ Db.products db →
  present records p = false →
  Db.most_recent (Product.id p) (Store.id store) db = Some r →
  ∃ l1 l2,
    stale_products records store db = l1 ++ (p, r) :: l2
    ∧ Forall (λ x, Product.id x.1 ≠ Product.id p) l1
    ∧ Forall (λ x, Product.id x.1 ≠ Product.id p) l2.
Proof.
  intros Hn Hp Hpres Hr.
  apply list_elem_of_split in Hp as (k1 & k2 & E).
  unfold stale_products. rewrite E in *. rewrite omap_app. simpl.
  rewrite Hpres, Hr. simpl. eexists _, _. split; [done|].
  rewrite fmap_app in Hn. simpl in Hn.
  apply NoDup_app in Hn as (_ & Hd1 & Hn2).
  apply NoDup_cons in Hn2 as [Hd2 _].
  split; apply Forall_forall; intros [q rq] Hq;
    apply list_elem_of_omap in Hq as (y & Hy & Hq);
    destruct (present records y); try done;
    destruct (Db.most_recent (Product.id y) (Store.id store) _); try done;
    simpl in Hq; simplify_eq; simpl; intros Heq.
  - apply (Hd1 (Product.id q)); [by apply list_elem_of_fmap_2|].
    rewrite Heq. left.
  - apply Hd2. rewrite <- Heq. by apply list_elem_of_fmap_2.
Qed.

Lemma most_recent_in_elem product store rows r :
  Db.most_recent_in product store rows = Some r →
  r ∈ rows ∧ Price.product r = product ∧ Price.store r = store.
Proof.
  revert r. induction rows as [|x rows IH] using rev_ind; intros r; [done|].
  rewrite most_recent_in_snoc.
  destruct ((Price.product x =? product) && (Price.store x =? store)) eqn:E.
  - apply andb_true_iff in E as [E1%Z.eqb_eq E2%Z.eqb_eq].
    unfold Db.newer.
    destruct (Db.most_recent_in product store rows) as [b|] eqn:Eb.
    + destruct (Price.scraped_at b <? Price.scraped_at x); intros [= <-].
      * split; [|done]. apply elem_of_app. right. left.
      * destruct (IH b eq_refl) as (Hin & H1 & H2).
        split; [|done]. apply elem_of_app. by left.
    + intros [= <-]. split; [|done]. apply elem_of_app. right. left.
  - intros H. destruct (IH r H) as (Hin & H1 & H2).
    split; [|done]. apply elem_of_app. by left.
Qed.

(** The database a reconciliation leaves. *)
Lemma reconcile_db records store db :
  (reconcile records store db).2
  = foldl (mark_unavailable store) (save_all records db).1
          (stale_products records store db).
Proof. unfold reconcile. by destruct (save_all records db). Qed.

Lemma reconcile_wf records store db :
  Db.wf db → Db.wf (reconcile records store db).2.
Proof.
  intros Hwf. rewrite reconcile_db.
  apply mark_all_wf. by apply save_all_wf.
Qed.

(** C2. After the reconciliation of a full scrape of a store, a product
    that had a most recent price row at the store before the run and is
    absent from the accepted records of the run has a new most recent row
    at the store, with the last known price and the availability flag
    cleared.  The rows that existed before the run are all still there,
    unchanged and in place: the run only appends rows. *)
Theorem absent_product_marked_unavailable
    (records : list RawRecord.t) (store : Store.t) (db : Db.t)
    (p : Product.t) (r : Price.t) :
  Db.wf db →
  p ∈ Db.products db →
  Db.most_recent (Product.id p) (Store.id store) db = Some r →
  Forall (λ item, RawRecord.name item ≠ Product.name p) records →
  let db' := (reconcile records store db).2 in
  ∃ r' added,
    Db.prices db' = Db.prices db ++ added
    ∧ r' ∈ added
    ∧ Db.most_recent (Product.id p) (Store.id store) db' = Some r'
    ∧ Price.price_value r' = Price.price_value r
    ∧ Price.is_available r' = false
    ∧ Price.scraped_at r < Price.scraped_at r'
    ∧ p ∈ Db.products db'.
Proof.
  intros Hwf Hp Hr Habsent db'.
  pose proof Hwf as (Hn & Hb & Ht).
  assert (present records p = false) as Hpres by (by apply present_false).
  destruct (stale_products_split records store db p r Hn Hp Hpres Hr)
    as (l1 & l2 & Hstale & Hl1 & Hl2).
  destruct (save_all_spec records db 0%nat) as (_ & _ & Hkeep & Hother).
  pose proof (Hkeep p Hp) as Hp1.
  pose proof (Hother p Hwf Hp Habsent) as He1.
  fold (save_all records db) in Hp1, He1.
  set (db1 := (save_all records db).1) in *.
  assert (db' = foldl (mark_unavailable store)
                  (mark_unavailable store
                     (foldl (mark_unavailable store) db1 l1) (p, r)) l2)
    as Hdb'.
  { unfold db'. rewrite reconcile_db. fold db1. rewrite Hstale.
    by rewrite foldl_app. }
  set (db2 := foldl (mark_unavailable store) db1 l1) in *.
  pose proof (mark_all_other store l1 db1 (Product.id p) Hl1) as He2.
  fold db2 in He2.
  assert (Db.extends_without (Product.id p) db db2) as He02
    by (by eapply extends_without_trans).
  set (r' := Price.mk (Product.id p) (Store.id store) (Price.price_value r)
                      false (Db.clock db2)).
  set (db3 := mark_unavailable store db2 (p, r)) in *.
  assert (Db.prices db3 = Db.prices db2 ++ [r']) as Hp3 by done.
  pose proof (mark_all_other store l2 db3 (Product.id p) Hl2) as He3.
  rewrite <- Hdb' in He3.
  destruct He02 as (a1 & Ea1 & Ha1 & Hc1).
  destruct He3 as (a2 & Ea2 & Ha2 & Hc2).
  assert (Price.scraped_at r < Db.clock db) as Hrt.
  { apply most_recent_in_elem in Hr as (Hin & _).
    rewrite Forall_forall in Ht. by apply Ht. }
  exists r', (a1 ++ [r'] ++ a2). split_and!.
  - rewrite Ea2, Hp3, Ea1. by rewrite <- !app_assoc.
  - apply elem_of_app. right. left.
  - unfold Db.most_recent. rewrite Ea2.
    rewrite most_recent_in_app_other by done.
    rewrite Hp3, most_recent_in_snoc. simpl.
    rewrite !Z.eqb_refl. simpl.
    rewrite Ea1, most_recent_in_app_other by done.
    unfold Db.most_recent in Hr. rewrite Hr. simpl.
    by rewrite (proj2 (Z.ltb_lt _ _)) by lia.
  - done.
  - done.
  - simpl. lia.
  - rewrite Hdb'.
    destruct (mark_all_prices store l2 db3) as (_ & _ & ->).
    simpl.
    destruct (mark_all_prices store l1 db1) as (_ & _ & Hprod).
    fold db2 in Hprod. by rewrite Hprod.
Qed.

Lemma wf_empty : Db.wf Db.empty.
Proof.
  unfold Db.wf. simpl. split_and!; [apply NoDup_nil_2|constructor..].
Qed.

(** The statement at the scenario of the two runs: product C, priced in
    run 1 and absent from run 2, ends run 2 unavailable at its last
    price. *)
Lemma absent_product_marked_unavailable_witness :
  ∃ r' added,
    Db.prices (reconcile Scenario.run2 Scenario.test_store
                         Scenario.db_after_run1).2
    = Db.prices Scenario.db_after_run1 ++ added
    ∧ Db.most_recent 3 1 (reconcile Scenario.run2 Scenario.test_store
                                    Scenario.db_after_run1).2 = Some r'
    ∧ Price.price_value r' = 30.5%Q
    ∧ Price.is_available r' = false.
Proof.
  destruct (absent_product_marked_unavailable Scenario.run2
              Scenario.test_store Scenario.db_after_run1 Scenario.product_C
              Scenario.last_row_C)
    as (r' & added & H1 & _ & H2 & H3 & H4 & _).
  - apply (reconcile_wf Scenario.run1 Scenario.test_store). vm_compute.
    split_and!; [apply NoDup_nil_2|constructor..].
  - assert (∃ a b, Db.products Scenario.db_after_run1
                   = [a; b; Scenario.product_C]) as (a & b & ->)
      by (by eexists _, _).
    apply elem_of_cons. right. apply elem_of_cons. right.
    apply elem_of_cons. by left.
  - reflexivity.
  - repeat constructor; discriminate.
  - exists r', added. by split_and!.
Defined.

End PriceReconcilerProofs.

(* ===================================================================== *)
(** * Properties of the store table                                       *)
(* ===================================================================== *)

Module SystemProofs.
Import System.

Lemma save_all_stores records db :
  Db.stores (PriceReconciler.save_all records db).1 = Db.stores db.
Proof. by apply (PriceReconcilerProofs.save_all_spec records db 0%nat). Qed.

Lemma mark_all_stores store l db :
  Db.stores (foldl (PriceReconciler.mark_unavailable store) db l)
  = Db.stores db.
Proof.
  revert db. induction l as [|x l IH]; intros db; simpl; [done|].
  by rewrite IH.
Qed.

(** The reconciler does not write the store table. *)
Lemma reconcile_stores records store db :
  Db.stores (PriceReconciler.reconcile records store db).2 = Db.stores db.
Proof.
  rewrite PriceReconcilerProofs.reconcile_db.
  by rewrite mark_all_stores, save_all_stores.
Qed.

(** The save loop does not write the store table. *)
Lemma save_loop_stores products db :
  Db.stores (PriceReconciler.save_loop products db).2 = Db.stores db.
Proof. apply PriceReconcilerProofs.save_loop_spec. Qed.

Lemma store_conflicts_false row db :
  Db.store_conflicts row db = false →
  (Store.external_store_id row
     ∉ (Store.external_store_id <$> Db.stores db))
  ∧ ((Store.chain_name row, Store.address row)
       ∉ ((λ s, (Store.chain_name s, Store.address s)) <$> Db.stores db)).
Proof.
  unfold Db.store_conflicts. intros H.
  assert (∀ r, r ∈ Db.stores db →
            String.eqb (Store.external_store_id r)
                       (Store.external_store_id row)
            || (String.eqb (Store.chain_name r) (Store.chain_name row)
                && String.eqb (Store.address r) (Store.address row))
            = false) as Hall.
  { intros r Hr. apply not_true_is_false. intros Ht.
    assert (existsb (λ r,
              String.eqb (Store.external_store_id r)
                         (Store.external_store_id row)
              || (String.eqb (Store.chain_name r) (Store.chain_name row)
                  && String.eqb (Store.address r) (Store.address row)))
              (Db.stores db) = true) as Hex; [|congruence].
    apply existsb_exists. exists r. split; [by apply list_elem_of_In|done]. }
  split.
  - intros (r & Heq & Hr)%list_elem_of_fmap. specialize (Hall r Hr).
    apply orb_false_iff in Hall as [Hext _].
    apply String.eqb_neq in Hext. congruence.
  - intros (r & Heq & Hr)%list_elem_of_fmap. specialize (Hall r Hr).
    apply orb_false_iff in Hall as [_ Hpair].
    injection Heq as H1 H2.
    by rewrite <- H1, <- H2, !String.eqb_refl in Hpair.
Qed.

Lemma seed_store_unique c a e u la lo db :
  unique_stores db → unique_stores (seed_store c a e u la lo db).
Proof.
  intros [He Hp]. unfold seed_store.
  destruct (Db.store_conflicts _ db) eqn:E; [done|].
  apply store_conflicts_false in E as [E1 E2]. simpl in E1, E2.
  unfold unique_stores. simpl. rewrite !fmap_app. simpl.
  split; apply NoDup_app; (split_and!; [done| |apply NoDup_singleton]);
    intros x Hx Hin; apply list_elem_of_singleton in Hin; by subst.
Qed.

Lemma deactivate_store_keys e db :
  store_key <$> Db.stores (deactivate_store e db)
  = store_key <$> Db.stores db.
Proof.
  unfold deactivate_store. simpl. rewrite <- list_fmap_compose.
  apply list_fmap_ext. intros i s _. simpl.
  by destruct (String.eqb _ e).
Qed.

Lemma keys_external_ids (l : list Store.t) :
  Store.external_store_id <$> l = (λ k, k.2) <$> (store_key <$> l).
Proof. by rewrite <- list_fmap_compose. Qed.

Lemma keys_chain_address (l : list Store.t) :
  (λ s, (Store.chain_name s, Store.address s)) <$> l
  = (λ k, (k.1.1.2, k.1.2)) <$> (store_key <$> l).
Proof. by rewrite <- list_fmap_compose. Qed.

Lemma unique_stores_keys db db' :
  store_key <$> Db.stores db' = store_key <$> Db.stores db →
  unique_stores db → unique_stores db'.
Proof.
  unfold unique_stores. rewrite !keys_external_ids, !keys_chain_address.
  by intros ->.
Qed.

Lemma step_unique db s : unique_stores db → unique_stores (step db s).
Proof.
  destruct s as [c a e u la lo|e|records store|products|get_scraper];
    cbn [step].
  - apply seed_store_unique.
  - apply unique_stores_keys, deactivate_store_keys.
  - apply unique_stores_keys. by rewrite reconcile_stores.
  - apply unique_stores_keys. by rewrite save_loop_stores.
  - done.
Qed.

Lemma step_keys db s :
  (store_key <$> Db.stores db) `prefix_of` (store_key <$> Db.stores (step db s)).
Proof.
  destruct s as [c a e u la lo|e|records store|products|get_scraper];
    cbn [step].
  - unfold seed_store. destruct (Db.store_conflicts _ db); [done|].
    simpl. rewrite fmap_app. by apply prefix_app_r.
  - by rewrite deactivate_store_keys.
  - by rewrite reconcile_stores.
  - by rewrite save_loop_stores.
  - done.
Qed.

Lemma foldl_step_keys db more :
  (store_key <$> Db.stores db)
    `prefix_of` (store_key <$> Db.stores (foldl step db more)).
Proof.
  revert db. induction more as [|s more IH]; intros db; simpl; [done|].
  etrans; [apply step_keys|apply IH].
Qed.

Lemma run_unique steps : unique_stores (run steps).
Proof.
  unfold run. induction steps as [|s steps IH] using rev_ind.
  - split; simpl; apply NoDup_nil_2.
  - rewrite foldl_snoc. by apply step_unique.
Qed.

Lemma step_wf db s : Db.wf db → Db.wf (step db s).
Proof.
  destruct s as [c a e u la lo|e|records store|products|get_scraper];
    cbn [step].
  - unfold seed_store. destruct (Db.store_conflicts _ db); [done|].
    intros (Hn & Hb & Ht). unfold Db.wf. simpl. split_and!; [done| |done].
    eapply Forall_impl; [exact Hb|]. simpl. intros. lia.
  - done.
  - apply PriceReconcilerProofs.reconcile_wf.
  - apply PriceReconcilerProofs.save_loop_spec.
  - done.
Qed.

(** Every reachable database satisfies the guarantees the reconciler
    relies on. *)
Lemma run_wf steps : Db.wf (run steps).
Proof.
  unfold run. induction steps as [|s steps IH] using rev_ind.
  - unfold Db.wf. simpl. split_and!; [apply NoDup_nil_2|constructor..].
  - rewrite foldl_snoc. by apply step_wf.
Qed.

(** C6. In every state the system reaches by seeding, discontinuing
    locations, reconciling, saving and scraping, no two store rows share an
    external store id and no two share a chain name and address.  Store
    rows are never deleted: the rows of a state, with their keys, are still
    there, in place, after any further operations.  Discontinuing a
    location keeps every row and leaves the rows of that location with
    [is_active] false. *)
Theorem store_table_invariants (steps : list Step) :
  let db := run steps in
  NoDup (Store.external_store_id <$> Db.stores db)
  ∧ NoDup ((λ s, (Store.chain_name s, Store.address s)) <$> Db.stores db)
  ∧ (∀ more,
       (store_key <$> Db.stores db)
         `prefix_of` (store_key <$> Db.stores (run (steps ++ more))))
  ∧ (∀ e,
       let db' := run (steps ++ [Discontinue e]) in
       store_key <$> Db.stores db' = store_key <$> Db.stores db
       ∧ ∀ s, s ∈ Db.stores db' → Store.external_store_id s = e →
              Store.is_active s = false).
Proof.
  intros db. destruct (run_unique steps) as [He Hp]. split_and!; [done..| |].
  - intros more. unfold run. rewrite foldl_app. apply foldl_step_keys.
  - intros e db'. unfold db', run. rewrite foldl_snoc. simpl. split.
    + apply deactivate_store_keys.
    + unfold deactivate_store. simpl.
      intros s (s0 & -> & Hs0)%list_elem_of_fmap.
      destruct (String.eqb_spec (Store.external_store_id s0) e); [done|].
      by intros.
Qed.

(** The statement at the steps of the scenario: the second seeding of the
    test store adds no row, and the discontinued store stays, inactive. *)
Lemma store_table_invariants_witness :
  Store.external_store_id <$> Db.stores (run Scenario.store_steps)
  = ["atb-test-1"; "atb-test-2"]%string
  ∧ NoDup (Store.external_store_id <$> Db.stores (run Scenario.store_steps))
  ∧ Store.is_active <$> Db.stores (run Scenario.store_steps)
    = [false; true].
Proof.
  destruct (store_table_invariants Scenario.store_steps) as (H & _).
  split_and!; [reflexivity|exact H|reflexivity].
Defined.

End SystemProofs.

(* ===================================================================== *)
(** * Badges and colours of the stores                                    *)
(* ===================================================================== *)

Module BadgeProofs.
Import MapScreen.

Lemma Qgt_bool_true x y : Qgt_bool x y = true ↔ (y < x)%Q.
Proof.
  unfold Qgt_bool. rewrite negb_true_iff. split.
  - intros H. apply Qnot_le_lt. intros Hc. apply Qle_bool_iff in Hc.
    congruence.
  - intros H. destruct (Qle_bool x y) eqn:E; [|done].
    apply Qle_bool_iff in E. lra.
Qed.

Lemma Qgt_bool_false x y : Qgt_bool x y = false ↔ (x <= y)%Q.
Proof.
  unfold Qgt_bool. rewrite negb_false_iff. apply Qle_bool_iff.
Qed.

Lemma savings_badge_not_best s : savings_badge s ≠ best_badge.
Proof. unfold savings_badge, best_badge. simpl. discriminate. Qed.

(** The badge and the colour of one store, by the cases of the callback. *)
Lemma badge_store_cases first second s :
  let b := badge_store first second s in
  store b = s
  ∧ ((isBest b = true ∧ badge b = Some best_badge ∧ badgeColor b = success)
     ∨ (isBest b = false ∧ badge b = Some (savings_badge s)
        ∧ badgeColor b = warning ∧ (0 < savings s)%Q
        ∧ ∃ s2, second = Some s2 ∧ id s = id s2)
     ∨ (isBest b = false ∧ badge b = Some (savings_badge s)
        ∧ badgeColor b = primary ∧ (20 < savings s)%Q)
     ∨ (isBest b = false ∧ badge b = None ∧ badgeColor b = primary
        ∧ (savings s <= 20)%Q)).
Proof.
  unfold badge_store.
  destruct (id s =? id first) eqn:E1; simpl; [split; [done|by left]|].
  destruct second as [s2|]; simpl.
  - destruct (id s =? id s2) eqn:E2; simpl.
    + destruct (Qgt_bool (savings s) 0) eqn:E3; simpl.
      * apply Qgt_bool_true in E3. apply Z.eqb_eq in E2.
        split; [done|]. right; left. split_and!; try done. by exists s2.
      * destruct (Qgt_bool (savings s) 20) eqn:E4; simpl.
        -- apply Qgt_bool_true in E4. split; [done|]. right; right; left.
           by split_and!.
        -- apply Qgt_bool_false in E4. split; [done|]. right; right; right.
           by split_and!.
    + destruct (Qgt_bool (savings s) 20) eqn:E4; simpl.
      * apply Qgt_bool_true in E4. split; [done|]. right; right; left.
        by split_and!.
      * apply Qgt_bool_false in E4. split; [done|]. right; right; right.
        by split_and!.
  - destruct (Qgt_bool (savings s) 20) eqn:E4; simpl.
    + apply Qgt_bool_true in E4. split; [done|]. right; right; left.
      by split_and!.
    + apply Qgt_bool_false in E4. split; [done|]. right; right; right.
      by split_and!.
Qed.

(** X10. Every store that [assignStoreBadges] returns is a store of the
    list.  It carries the badge 'Найкраща ціна', and the success colour,
    exactly when it is marked [isBest].  A store that is not the best
    carries a savings badge whenever its savings exceed 20; a store without
    a badge has savings of at most 20 and the primary colour; and the
    warning colour goes only to a store with positive savings whose id is
    that of the second store in ascending order of total price. *)
Theorem assignStoreBadges_badges (storeList : list Store)
    (b : BadgedStore) :
  b ∈ assignStoreBadges storeList →
  store b ∈ storeList
  ∧ (isBest b = true ↔ badge b = Some best_badge)
  ∧ (isBest b = true ↔ badgeColor b = success)
  ∧ (isBest b = false → (20 < savings (store b))%Q →
     badge b = Some (savings_badge (store b)))
  ∧ (badge b = None →
     badgeColor b = primary ∧ (savings (store b) <= 20)%Q)
  ∧ (badgeColor b = warning →
     (0 < savings (store b))%Q
     ∧ badge b = Some (savings_badge (store b))
     ∧ ∃ second, sort storeList !! 1%nat = Some second
                 ∧ id (store b) = id second).
Proof.
  intros Hb.
  destruct (sort storeList) as [|first rest] eqn:Hs.
  { apply MapScreenProofs.sort_nil_inv in Hs as ->. by inversion Hb. }
  rewrite (MapScreenProofs.assignStoreBadges_sorted _ _ _ Hs) in Hb.
  apply list_elem_of_fmap in Hb as (s & -> & Hin).
  pose proof (savings_badge_not_best s) as Hne.
  destruct (badge_store_cases first (head rest) s)
    as [Hst [(H1 & H2 & H3)|[(H1 & H2 & H3 & H4 & s2 & H5 & H6)
           |[(H1 & H2 & H3 & H4)|(H1 & H2 & H3 & H4)]]]];
    rewrite Hst, H1, H2, H3; split_and!; try done;
    try (split; congruence); try (intros; lra); try congruence.
  intros _. split_and!; [done..|]. exists s2. split; [|done].
  simpl. by rewrite <- head_lookup.
Qed.

Lemma assignStoreBadges_badges_witness :
  let b := mkBadged (mkStore 2 "Сільпо" (-0.005) (-0.003) 923.40 28.20
                             "0.5 км")
                    false (Some "Економія ₴28"%string) primary in
  b ∈ assignStoreBadges Examples.demo_stores
  ∧ (isBest b = true ↔ badgeColor b = success)
  ∧ badge b = Some (savings_badge (store b)).
Proof.
  intros b.
  assert (b ∈ assignStoreBadges Examples.demo_stores) as Hb.
  { apply list_elem_of_lookup. exists 1%nat. reflexivity. }
  destruct (assignStoreBadges_badges Examples.demo_stores b Hb)
    as (_ & _ & H3 & H4 & _).
  split_and!; [exact Hb|exact H3|].
  apply H4; [reflexivity|reflexivity].
Defined.

End BadgeProofs.

(* ===================================================================== *)
(** * The session after the Silpo store context                           *)
(* ===================================================================== *)

Module SilpoContextProofs.
Import StoreContextInjector.

Lemma Silpo_set_store_context_known ctx v s :
  Silpo.store_id_map !! StoreContext.external_store_id ctx = Some v →
  Silpo.set_store_context ctx s
  = (inr (),
     mkSession (<[(".silpo.ua", "storeId") := v]> (cookies s))
               (<["activeStoreId" := v]> (localStorage s))
               (cookies_modal_open s) (region s) (selected_store s)
               (Some v)).
Proof.
  intros E. StoreContextInjectorProofs.run_driver. rewrite E. simpl.
  by rewrite lookup_insert_eq.
Qed.

(** X11. The Silpo [set_store_context] for a store of its id map succeeds;
    the local storage entry [activeStoreId] and the cookie [storeId] of
    [.silpo.ua] then both hold the numeric id of the store, and no other
    entry of the local storage, no other cookie and nothing of the location
    selector has changed.  Whatever context was set
    before, for a known or an unknown store, the session is the one the
    call alone gives.  For a store that the map lacks, the call raises and
    leaves the session as it was. *)
Theorem Silpo_set_store_context_frame
    (before ctx : StoreContext.t) (s : Session) :
  let r := Silpo.set_store_context ctx s in
  (∀ v, Silpo.store_id_map !! StoreContext.external_store_id ctx = Some v →
     r.1 = inr ()
     ∧ localStorage r.2 !! "activeStoreId" = Some v
     ∧ cookies r.2 !! (".silpo.ua", "storeId") = Some v
     ∧ (∀ key, key ≠ "activeStoreId" →
          localStorage r.2 !! key = localStorage s !! key)
     ∧ (∀ key, key ≠ (".silpo.ua", "storeId") →
          cookies r.2 !! key = cookies s !! key)
     ∧ cookies_modal_open r.2 = cookies_modal_open s
     ∧ region r.2 = region s
     ∧ selected_store r.2 = selected_store s
     ∧ Silpo.set_store_context ctx (Silpo.set_store_context before s).2 = r)
  ∧ (Silpo.store_id_map !! StoreContext.external_store_id ctx = None →
     r = (inl (KeyError (StoreContext.external_store_id ctx)), s)).
Proof.
  intros r. split.
  - intros v E. subst r. rewrite (Silpo_set_store_context_known _ _ _ E).
    simpl. split_and!; try done.
    + by rewrite lookup_insert_eq.
    + by rewrite lookup_insert_eq.
    + intros key Hk. by rewrite lookup_insert_ne.
    + intros key Hk. by rewrite lookup_insert_ne.
    + destruct (Silpo.store_id_map !! StoreContext.external_store_id before)
        as [w|] eqn:Eb.
      * rewrite (Silpo_set_store_context_known _ _ _ Eb). simpl.
        rewrite (Silpo_set_store_context_known _ _ _ E). simpl.
        by rewrite !insert_insert_eq.
      * rewrite (StoreContextInjectorProofs.Silpo_unknown_id _ _ Eb). simpl.
        by rewrite (Silpo_set_store_context_known _ _ _ E).
  - intros E. by apply StoreContextInjectorProofs.Silpo_unknown_id.
Qed.

End SilpoContextProofs.

(* ===================================================================== *)
(** * The body of the save loop                                           *)
(* ===================================================================== *)

Module SaveLoopProofs.
Import PriceReconciler.

Lemma get_raises {A} (l : list A) e :
  Db.get l = inl e →
  (e = DoesNotExist ∧ l = [])
  ∨ (e = MultipleObjectsReturned ∧ (2 ≤ length l)%nat).
Proof.
  destruct l as [|x [|y l]]; simpl; intros [= <-].
  - by left.
  - right. split; [done|lia].
Qed.

Lemma filter_nil_Forall {A} (P : A → Prop) `{∀ x, Decision (P x)} l :
  filter P l = [] ↔ Forall (λ x, ¬ P x) l.
Proof.
  induction l as [|x l IH]; [by split|].
  rewrite filter_cons, Forall_cons. destruct (decide (P x)) as [Hx|Hx].
  - split; [done|]. by intros [? _].
  - rewrite IH. split; [by split|by intros [_ ?]].
Qed.


(** [get_or_create] on a table with one product of the name. *)
Lemma get_or_create_product_old name db q :
  filter (λ p, Product.name p = name) (Db.products db) = [q] →
  Db.get_or_create_product name db = (inr q, db).
Proof. intros H. unfold Db.get_or_create_product. by rewrite H. Qed.

(** After a [get_or_create] that returns a product, the table has that
    one product of the name. *)
Lemma get_or_create_product_unique name db q db' :
  Db.get_or_create_product name db = (inr q, db') →
  filter (λ p, Product.name p = name) (Db.products db') = [q]
  ∧ Db.stores db' = Db.stores db ∧ Db.prices db' = Db.prices db
  ∧ Db.clock db' = Db.clock db
  ∧ (db' = db
     ∨ (Forall (λ p, Product.name p ≠ name) (Db.products db)
        ∧ Db.products db' = Db.products db ++ [q]
        ∧ q = Product.mk (Db.next_product_id db) name None None None)).
Proof.
  unfold Db.get_or_create_product.
  destruct (Db.get (filter _ (Db.products db))) as [e|p] eqn:E.
  - destruct (get_raises _ _ E) as [[-> Hnil]|[-> _]]; [|by intros [=]].
    intros [= <- <-]. simpl. rewrite filter_app, Hnil. simpl.
    rewrite filter_cons_True, filter_nil by done.
    split_and!; try done. right.
    split_and!; [|done..].
    by apply (filter_nil_Forall (λ p, Product.name p = name)).
  - intros [= <- <-]. apply PriceReconcilerProofs.get_singleton in E.
    split_and!; try done. by left.
Qed.

Lemma save_record_saved db item db' :
  save_record db item = (None, db') →
  ∃ name price_value in_stock product store db1,
    ScrapedItem.name item = Some name
    ∧ ScrapedItem.price item = Some price_value
    ∧ ScrapedItem.in_stock item = Some in_stock
    ∧ Db.get_or_create_product name db = (inr product, db1)
    ∧ ScrapedItem.external_store_id item
      = Some (Store.external_store_id store)
    ∧ filter (λ r, Store.external_store_id r = Store.external_store_id store)
             (Db.stores db) = [store]
    ∧ db' = Db.create_price (Product.id product) (Store.id store)
                            price_value in_stock db1.
Proof.
  unfold save_record.
  destruct (ScrapedItem.name item) as [name|]; [|done].
  destruct (Db.get_or_create_product name db)
    as [[e|product] db1] eqn:E; [done|].
  destruct (ScrapedItem.external_store_id item) as [ext|]; [|done].
  destruct (Db.get_store ext db1) as [e|store] eqn:Es; [done|].
  destruct (ScrapedItem.price item) as [price_value|]; [|done].
  destruct (ScrapedItem.in_stock item) as [in_stock|]; [|done].
  intros [= <-]. unfold Db.get_store in Es.
  apply PriceReconcilerProofs.get_singleton in Es.
  destruct (get_or_create_product_unique _ _ _ _ E) as (_ & Hs & _).
  rewrite Hs in Es.
  assert (Store.external_store_id store = ext) as <-.
  { assert (store ∈ filter (λ r, Store.external_store_id r = ext)
                           (Db.stores db)) as Hin by (rewrite Es; left).
    by apply list_elem_of_filter in Hin as [? _]. }
  by exists name, price_value, in_stock, product, store, db1.
Qed.

(** X12. When the body of the save loop succeeds on an item, the item has
    the four keys and the product table holds exactly one product with the
    name of the item: the one that was there, or a new one at the end of
    the table.  The store table holds exactly one store with the external
    store id of the item, and the price table has gained one row at its
    end, for that product and that store, with the price and the stock flag
    of the item.  The stores are unchanged. *)
Theorem save_record_appends_row (db db' : Db.t) (item : ScrapedItem.t) :
  save_record db item = (None, db') →
  ∃ name price_value in_stock product store,
    ScrapedItem.name item = Some name
    ∧ ScrapedItem.price item = Some price_value
    ∧ ScrapedItem.in_stock item = Some in_stock
    ∧ filter (λ p, Product.name p = name) (Db.products db') = [product]
    ∧ (Db.products db' = Db.products db
       ∨ (Forall (λ p, Product.name p ≠ name) (Db.products db)
          ∧ Db.products db' = Db.products db ++ [product]))
    ∧ ScrapedItem.external_store_id item
      = Some (Store.external_store_id store)
    ∧ filter (λ r, Store.external_store_id r = Store.external_store_id store)
             (Db.stores db) = [store]
    ∧ Db.stores db' = Db.stores db
    ∧ Db.prices db'
      = Db.prices db ++ [Price.mk (Product.id product) (Store.id store)
                           price_value in_stock (Db.clock db)].
Proof.
  intros H.
  destruct (save_record_saved _ _ _ H)
    as (name & v & flag & product & store & db1
        & Hn & Hv & Hf & E & Hext & Hst & ->).
  destruct (get_or_create_product_unique _ _ _ _ E)
    as (Hu & Hs & Hp & Hc & Hcase).
  exists name, v, flag, product, store. simpl. rewrite Hp, Hc.
  split_and!; try done.
  destruct Hcase as [->|(Hnew & Happ & _)]; [by left|right; by split].
Qed.

Lemma save_record_appends_row_witness :
  let db := Db.with_stores [Scenario.test_store] Db.empty in
  let item := ScrapedItem.of_record (Scenario.raw "A" 10) in
  ∃ product store,
    Db.prices (save_record db item).2
    = [Price.mk (Product.id product) (Store.id store) 10 true 0]
    ∧ Db.products (save_record db item).2 = [product].
Proof.
  intros db item.
  destruct (save_record_appends_row db (save_record db item).2 item eq_refl)
    as (name & v & flag & product & store
        & _ & Hv & Hf & _ & [Hp|[_ Hp]] & _ & _ & _ & Hrow).
  - exfalso. discriminate Hp.
  - exists product, store. injection Hv as <-. injection Hf as <-.
    split; [exact Hrow|exact Hp].
Defined.

(** X13. [get_or_create] creates a product once: when the body of the save
    loop has succeeded on an item, it succeeds on the same item again,
    leaves the product table as it is, and appends a second row for the
    same product and store. *)
Theorem save_record_again (db db1 : Db.t) (item : ScrapedItem.t) :
  save_record db item = (None, db1) →
  ∃ db2 product store price_value in_stock,
    ScrapedItem.price item = Some price_value
    ∧ ScrapedItem.in_stock item = Some in_stock
    ∧ save_record db1 item = (None, db2)
    ∧ Db.products db2 = Db.products db1
    ∧ Db.prices db2
      = Db.prices db
        ++ [Price.mk product store price_value in_stock (Db.clock db);
            Price.mk product store price_value in_stock (Db.clock db + 1)].
Proof.
  intros H.
  destruct (save_record_saved _ _ _ H)
    as (name & v & flag & product & store & db0
        & Hn & Hv & Hf & E & Hext & Hst & ->).
  destruct (get_or_create_product_unique _ _ _ _ E)
    as (Hu & Hs & Hp & Hc & _).
  eexists _, (Product.id product), (Store.id store), v, flag.
  unfold save_record at 1. rewrite Hn.
  rewrite (get_or_create_product_old _ _ product) by done.
  rewrite Hext. unfold Db.get_store. simpl. rewrite Hs, Hst. simpl.
  rewrite Hv, Hf.
  split_and!; [done..|].
  simpl. by rewrite Hp, Hc, <- app_assoc.
Qed.

Lemma save_record_again_witness :
  let db := Db.with_stores [Scenario.test_store] Db.empty in
  let item := ScrapedItem.of_record (Scenario.raw "A" 10) in
  let db1 := (save_record db item).2 in
  ∃ db2, save_record db1 item = (None, db2)
         ∧ Db.products db2 = [Product.mk 1 "A" None None None].
Proof.
  intros db item db1.
  destruct (save_record_again db db1 item eq_refl)
    as (db2 & _ & _ & _ & _ & _ & _ & H & Hp & _).
  exists db2. split; [exact H|]. rewrite Hp. reflexivity.
Defined.



End SaveLoopProofs.
